(** * Protein-protein interaction analysis workflow: a shallow embedding

    The development embeds the two analysis scripts of the workflow,

    - [04_analyze_interactions.py]: [extract_interactions],
      [analyze_interactions];
    - [06_compare_structures.py]: [calculate_rmsd],
      [parse_arpeggio_interactions], [compare_interactions] and the
      per-type enumeration of [generate_comparison_report];

    and proves the properties the specification states about them.

    Conventions.
    - A Python call that may raise is a computation in [result]: either
      [Return v] or [Raise e].  A [try: ... except Exception as e:] block is
      [try_except].
    - Python floats are IEEE 754 binary64 numbers, taken from the standard
      library's executable specification [spec_float] (precision 53,
      maximal exponent 1024, round to nearest even).
    - Python strings are byte strings.  The scripts only strip and split on
      the one-byte character [/], concatenate, and compare strings
      lexicographically; all of these agree on a string and on its UTF-8
      encoding.
    - A Python [dict] keeps its insertion order: it is an association list
      whose keys are pairwise distinct.  A Python [set] is a [gset]; the
      order in which a [for] loop enumerates a set is not fixed by the
      language, so it is a parameter ([set_iter]). *)

From Stdlib Require Import ZArith String Ascii List SpecFloat FloatOps Sorted.
From stdpp Require Import gmap strings list fin_maps fin_sets.

Local Open Scope string_scope.
Local Open Scope list_scope.
Local Open Scope nat_scope.

(** ** Python computations that may raise *)

Inductive result (E A : Type) : Type :=
| Return (a : A)
| Raise (e : E).
Arguments Return {E A} a.
Arguments Raise {E A} e.

Definition bind {E A B} (c : result E A) (k : A → result E B) : result E B :=
  match c with
  | Return a => k a
  | Raise e => Raise e
  end.

#[global] Instance result_bind {E} : MBind (result E) := λ A B k c, bind c k.
#[global] Instance result_ret {E} : MRet (result E) := λ A a, Return a.

(** [try: body except Exception as e: handler e] *)
Definition try_except {E A} (body : result E A) (handler : E → result E A) : result E A :=
  match body with
  | Return a => Return a
  | Raise e => handler e
  end.

(** [for x in xs: acc = body acc x], where the body may raise. *)
Fixpoint for_each {E S X} (xs : list X) (body : S → X → result E S) (acc : S) : result E S :=
  match xs with
  | [] => Return acc
  | x :: xs' => acc' ← body acc x; for_each xs' body acc'
  end.

(** The built-in exceptions the embedded code can raise, by class. *)
Inductive py_error : Type :=
| AttributeError   (* a method of [str] or [dict] called on another value *)
| TypeError        (* an unhashable dictionary key, [float] of a container *)
| ValueError       (* [float] of a string that is not a number *)
| OverflowError.   (* [float] of an integer beyond the binary64 range *)

(** ** Floats *)

Definition float : Type := spec_float.

Definition fadd : float → float → float := SFadd prec emax.
Definition fmul : float → float → float := SFmul prec emax.
Definition fdiv : float → float → float := SFdiv prec emax.
(** [flt x y] is Python's [x < y]; [feq x y] is [x == y]. *)
Definition flt : float → float → bool := SFltb.
Definition feq : float → float → bool := SFeqb.

(** The float nearest to an integer: the conversion Python applies to an
    [int] operand of a float operation. *)
Definition of_int (z : Z) : float := binary_normalize prec emax z 0 false.

(** [0.0], and the float of the integer literal [0]. *)
Definition fzero : float := S754_zero false.

(** [a / b] on two integers, [b ≠ 0]: the float nearest to the quotient.
    Both operands are list or set sizes here; below [2^53] they convert
    exactly, so the quotient of the conversions is that float. *)
Definition int_truediv (a b : Z) : float := fdiv (of_int a) (of_int b).

(** The binary64 number written [3.2]. *)
Definition float_3_2 : float := S754_finite false 7205759403792794 (-51).

(** ** Strings *)

Definition slash : ascii := "/"%char.

(** [s.lstrip(c)], [s.rstrip(c)] and [s.strip(c)] for a one-character [c]. *)
Fixpoint lstrip (c : ascii) (s : string) : string :=
  match s with
  | String a s' => if Ascii.eqb a c then lstrip c s' else s
  | EmptyString => EmptyString
  end.

Fixpoint rstrip (c : ascii) (s : string) : string :=
  match s with
  | String a s' =>
      match rstrip c s' with
      | EmptyString => if Ascii.eqb a c then EmptyString else String a EmptyString
      | t => String a t
      end
  | EmptyString => EmptyString
  end.

Definition strip (c : ascii) (s : string) : string := rstrip c (lstrip c s).

(** [s.split(c)]: the segments between the occurrences of [c]; never empty. *)
Fixpoint split (c : ascii) (s : string) : list string :=
  match s with
  | EmptyString => [EmptyString]
  | String a s' =>
      if Ascii.eqb a c then EmptyString :: split c s'
      else match split c s' with
           | w :: ws => String a w :: ws
           | [] => [String a EmptyString]
           end
  end.

(** [sorted([a, b])] as a pair: the sort is stable, so [b] moves to the front
    only when it is strictly smaller. *)
Definition sorted2 (a b : string) : string * string :=
  if String.ltb b a then (b, a) else (a, b).

(** ** JSON values, as [json.load] returns them *)

#[local] Set Warnings "-register-all".
Inductive json : Type :=
| JNull
| JBool (b : bool)
| JInt (z : Z)
| JFloat (f : float)
| JStr (s : string)
| JList (l : list json)
| JDict (d : list (string * json)).

(** [d.get(k)] / [k in d] / [d[k]] on the items of a dict. *)
Fixpoint dict_get (k : string) (d : list (string * json)) : option json :=
  match d with
  | [] => None
  | (k', v) :: d' => if String.eqb k k' then Some v else dict_get k d'
  end.

(** Truth value of a JSON value in a Python condition. *)
Definition truthy (v : json) : bool :=
  match v with
  | JNull => false
  | JBool b => b
  | JInt z => negb (Z.eqb z 0)
  | JFloat f => negb (feq f fzero)
  | JStr s => negb (String.eqb s "")
  | JList l => match l with [] => false | _ => true end
  | JDict d => match d with [] => false | _ => true end
  end.

(** Values that can be dictionary keys or set members. *)
Definition hashable (v : json) : bool :=
  match v with
  | JList _ | JDict _ => false
  | _ => true
  end.

(** The segments of an atom path [/chain/resnum/resname/atomname]:
    [path.strip('/').split('/')]. *)
Definition path_parts (path : string) : list string := split slash (strip slash path).

(** [v.strip('/').split('/')], which only a string provides. *)
Definition strip_split (v : json) : result py_error (list string) :=
  match v with
  | JStr s => Return (path_parts s)
  | _ => Raise AttributeError
  end.

(** [f"{chain}:{resname}{resnum}"] *)
Definition residue_id (chain resname resnum : string) : string :=
  (chain ++ ":" ++ resname ++ resnum)%string.

(** ** [04_analyze_interactions.py] *)

Module Analyze.

(** The dictionary [extract_interactions] appends for each contact. *)
Record interaction : Type := {
  chain1 : string; resnum1 : string; resname1 : string; atom1 : string;
  chain2 : string; resnum2 : string; resname2 : string; atom2 : string;
  type : json;
  distance : float
}.

(** The three entries of ['distance_stats'].  With no distance to average
    the script stores the integer [0], otherwise a float. *)
Inductive number : Type :=
| Int (z : Z)
| Float (f : float).

Record statistics : Type := {
  mean : number; min : number; max : number
}.

(** The dictionary [analyze_interactions] returns.  ['type_counts'] is a
    [Counter] of the type tags: it is kept as the tags counted, in order. *)
Record analysis : Type := {
  total_interactions : nat;
  type_counts : list json;
  residue_pair_counts : gmap (string * string) (list json);
  residue_counts : gmap string nat;
  unique_residue_pairs : nat;
  distance_stats : statistics
}.

Section WithBuiltins.

(** [float(s)] on a string: the float it denotes, if any. *)
Variable float_of_str : string → option float.
(** [sum(xs)] on a list of floats.  Its rounding depends on the interpreter
    (a plain left-to-right sum, or a compensated one). *)
Variable py_sum : list float → float.

(** [float(v)] *)
Definition py_float (v : json) : result py_error float :=
  match v with
  | JBool b => Return (of_int (if b then 1 else 0))
  | JInt z =>
      match of_int z with
      | S754_infinity _ => Raise OverflowError
      | f => Return f
      end
  | JFloat f => Return f
  | JStr s =>
      match float_of_str s with
      | Some f => Return f
      | None => Raise ValueError
      end
  | JNull | JList _ | JDict _ => Raise TypeError
  end.

(** The body of [for contact in contacts], lines 80-107; [interactions] is
    the list built so far. *)
Definition extract_contact (chain1 resnum1 resname1 atomname1 : string)
    (interactions : list interaction) (contact : json)
  : result py_error (list interaction) :=
  match contact with
  | JDict c =>
      let bgn_atom := default (JStr "") (dict_get "bgn_atom" c) in
      let interaction_type := default (JStr "unknown") (dict_get "type" c) in
      let distance := default (JFloat fzero) (dict_get "distance" c) in
      bgn_parts ← strip_split bgn_atom;
      if length bgn_parts <? 4 then Return interactions
      else
        match firstn 4 bgn_parts with
        | [chain2; resnum2; resname2; atomname2] =>
            d ← (if truthy distance then py_float distance else Return fzero);
            Return (interactions ++ [
              {| chain1 := chain1; resnum1 := resnum1; resname1 := resname1;
                 atom1 := atomname1;
                 chain2 := chain2; resnum2 := resnum2; resname2 := resname2;
                 atom2 := atomname2;
                 type := interaction_type;
                 distance := d |} ])
        | _ => Raise ValueError
        end
  | _ => Return interactions
  end.

(** The body of [for atom_key, atom_data in arpeggio_data.items()],
    lines 60-107. *)
Definition extract_entry (interactions : list interaction)
    (item : string * json) : result py_error (list interaction) :=
  let '(atom_key, atom_data) := item in
  match atom_data with
  | JDict ad =>
      let parts := path_parts atom_key in
      if length parts <? 4 then Return interactions
      else
        match firstn 4 parts with
        | [chain1; resnum1; resname1; atomname1] =>
            match dict_get "contact" ad with
            | None => Return interactions
            | Some contacts =>
                let contacts :=
                  match contacts with JList l => l | _ => [contacts] end in
                for_each contacts
                  (extract_contact chain1 resnum1 resname1 atomname1)
                  interactions
            end
        | _ => Raise ValueError
        end
  | _ => Return interactions
  end.

Definition extract_interactions (arpeggio_data : json)
  : result py_error (list interaction) :=
  match arpeggio_data with
  | JDict items => for_each items extract_entry []
  | _ => Raise AttributeError
  end.

(** The key of ['residue_pair_counts'] for one interaction, lines 125-127. *)
Definition residue_pair (inter : interaction) : string * string :=
  let res1 := residue_id (chain1 inter) (resname1 inter) (resnum1 inter) in
  let res2 := residue_id (chain2 inter) (resname2 inter) (resnum2 inter) in
  sorted2 res1 res2.

(** [min(xs)] and [max(xs)] on a non-empty list: the first smallest and the
    first largest item. *)
Definition py_min (x : float) (xs : list float) : float :=
  foldl (λ cur item, if flt item cur then item else cur) x xs.
Definition py_max (x : float) (xs : list float) : float :=
  foldl (λ cur item, if flt cur item then item else cur) x xs.

(** Lines 139-151: the distances kept, and their statistics. *)
Definition positive_distances (interactions : list interaction) : list float :=
  List.filter (λ d, flt (of_int 0) d) (List.map distance interactions).

Definition stats_of (distances : list float) : statistics :=
  match distances with
  | [] => {| mean := Int 0; min := Int 0; max := Int 0 |}
  | d :: ds =>
      {| mean := Float (fdiv (py_sum distances)
                             (of_int (Z.of_nat (length distances))));
         min := Float (py_min d ds);
         max := Float (py_max d ds) |}
  end.

(** [Counter(inter['type'] for inter in interactions)], line 120: a tag that
    cannot be a dictionary key raises. *)
Definition count_type (counted : list json) (inter : interaction)
  : result py_error (list json) :=
  if hashable (type inter) then Return (counted ++ [type inter])
  else Raise TypeError.

Definition count_types (interactions : list interaction)
  : result py_error (list json) :=
  for_each interactions count_type [].

Definition analyze_interactions (interactions : list interaction)
  : result py_error analysis :=
  type_counts ← count_types interactions;
  let residue_pair_counts :=
    foldl (λ (m : gmap (string * string) (list json)) inter,
             let key := residue_pair inter in
             <[key := (default [] (m !! key) ++ [type inter])]> m)
          ∅ interactions in
  let residue_counts :=
    foldl (λ (m : gmap string nat) inter,
             let res1 := residue_id (chain1 inter) (resname1 inter) (resnum1 inter) in
             let res2 := residue_id (chain2 inter) (resname2 inter) (resnum2 inter) in
             let m := <[res1 := default 0 (m !! res1) + 1]> m in
             <[res2 := default 0 (m !! res2) + 1]> m)
          ∅ interactions in
  Return {| total_interactions := length interactions;
            type_counts := type_counts;
            residue_pair_counts := residue_pair_counts;
            residue_counts := residue_counts;
            unique_residue_pairs := size residue_pair_counts;
            distance_stats := stats_of (positive_distances interactions) |}.

End WithBuiltins.

End Analyze.

(** ** [06_compare_structures.py] *)

Module Compare.

(** *** Structures, as the structure parser returns them *)

Record atom : Type := {
  atom_name : string;
  coord : float * float * float
}.

(** A residue with its atoms in record order.  Iterating a residue yields
    [atoms]; ['CA' in residue] and [residue['CA']] look an atom up by name. *)
Record residue : Type := {
  resname : string;
  atoms : list atom
}.

Definition chain : Type := list residue.
Definition model : Type := list chain.
Definition structure : Type := list model.

(** An exception raised inside the libraries; [exc_str e] is [str(e)]. *)
Record exception : Type := {
  exc_class : string;
  exc_str : string
}.

(** The dictionary [calculate_rmsd] returns; a key that is not set is
    [None]. *)
Record rmsd_result : Type := {
  rmsd : float;
  n_atoms : nat;
  atom_type : option string;
  error : option string
}.

(** What the module does when it is imported, lines 45-51: the value of
    [BIOPYTHON_AVAILABLE] and the lines printed. *)
Definition import_biopython (importable : bool) : list string * bool :=
  if importable then ([], true)
  else (["WARNING: BioPython not available. Structural alignment disabled."], false).

Section Superposition.

Variable BIOPYTHON_AVAILABLE : bool.
(** [PDBParser(QUIET=True).get_structure(id, file)] *)
Variable get_structure : string → string → result exception structure.
(** [PDB.is_aa(residue)] *)
Variable is_aa : residue → bool.
(** [s = Superimposer(); s.set_atoms(fixed, moving); s.rms] *)
Variable superimposer_rms : list atom → list atom → result exception float.

Definition residue_get (name : string) (r : residue) : option atom :=
  List.find (λ a, String.eqb (atom_name a) name) (atoms r).

(** The atoms one residue contributes, lines 83-88. *)
Definition residue_atoms (atom_type : string) (r : residue) : list atom :=
  if is_aa r then
    match String.eqb atom_type "CA", residue_get "CA" r with
    | true, Some ca => [ca]
    | _, _ => if String.eqb atom_type "all" then atoms r else []
    end
  else [].

(** The three nested loops of lines 80-88 (and 90-98). *)
Definition extract_atoms (atom_type : string) (s : structure) : list atom :=
  List.flat_map (λ m : model,
    List.flat_map (λ c : chain,
      List.flat_map (residue_atoms atom_type) c) m) s.

(** The lines printed, and the value returned or the exception raised. *)
Definition calculate_rmsd (predicted_pdb experimental_pdb atom_type : string)
  : list string * result exception rmsd_result :=
  if negb BIOPYTHON_AVAILABLE then
    (["ERROR: BioPython required for RMSD calculation"],
     Return {| rmsd := fzero; n_atoms := 0; atom_type := None;
               error := Some "BioPython not available" |})
  else
    ([],
     try_except
       (pred_structure ← get_structure "predicted" predicted_pdb;
        exp_structure ← get_structure "experimental" experimental_pdb;
        let pred_atoms := extract_atoms atom_type pred_structure in
        let exp_atoms := extract_atoms atom_type exp_structure in
        let n_atoms := Nat.min (length pred_atoms) (length exp_atoms) in
        if n_atoms =? 0 then
          Return {| rmsd := fzero; n_atoms := 0; atom_type := None;
                    error := Some "No matching atoms" |}
        else
          let pred_atoms := firstn n_atoms pred_atoms in
          let exp_atoms := firstn n_atoms exp_atoms in
          rmsd ← superimposer_rms exp_atoms pred_atoms;
          Return {| rmsd := rmsd; n_atoms := n_atoms;
                    atom_type := Some atom_type; error := None |})
       (λ e, Return {| rmsd := fzero; n_atoms := 0; atom_type := None;
                       error := Some (exc_str e) |})).

End Superposition.

(** *** Contact records *)

(** An interaction tuple [(res_a, res_b, itype)]. *)
Abbreviation interaction T := (string * string * T)%type.

(** The body of [for contact in contacts], lines 153-169.  [acc] is the pair
    of [interactions] and of the tags counted in [interaction_types]. *)
Definition parse_contact (res1 : string)
    (acc : list (interaction json) * list json) (contact : json)
  : result py_error (list (interaction json) * list json) :=
  let '(interactions, interaction_types) := acc in
  match contact with
  | JDict c =>
      let bgn_atom := default (JStr "") (dict_get "bgn_atom" c) in
      let itype := default (JStr "unknown") (dict_get "type" c) in
      bgn_parts ← strip_split bgn_atom;
      if length bgn_parts <? 4 then Return acc
      else
        match firstn 4 bgn_parts with
        | [chain2; resnum2; resname2; atomname2] =>
            let res2 := residue_id chain2 resname2 resnum2 in
            let interaction := (sorted2 res1 res2, itype) in
            let interactions := (interactions ++ [interaction]) in
            if hashable itype
            then Return (interactions, (interaction_types ++ [itype]))
            else Raise TypeError
        | _ => Raise ValueError
        end
  | _ => Return acc
  end.

(** The body of [for atom_key, atom_data in data.items()], lines 137-169. *)
Definition parse_entry (acc : list (interaction json) * list json)
    (item : string * json)
  : result py_error (list (interaction json) * list json) :=
  let '(atom_key, atom_data) := item in
  match atom_data with
  | JDict ad =>
      match dict_get "contact" ad with
      | None => Return acc
      | Some contacts =>
          let parts := path_parts atom_key in
          if length parts <? 4 then Return acc
          else
            match firstn 4 parts with
            | [chain1; resnum1; resname1; atomname1] =>
                let res1 := residue_id chain1 resname1 resnum1 in
                let contacts :=
                  match contacts with JList l => l | _ => [contacts] end in
                for_each contacts (parse_contact res1) acc
            | _ => Raise ValueError
            end
      end
  | _ => Return acc
  end.

(** [parse_arpeggio_interactions], from the loaded JSON value on.  The second
    component stands for the [Counter] of tags: the tags it counted. *)
Definition parse_arpeggio_interactions (data : json)
  : result py_error (list (interaction json) * list json) :=
  match data with
  | JDict items => for_each items parse_entry ([], [])
  | _ => Raise AttributeError
  end.

(** *** Comparison of two interaction collections *)

Module Overall.
Record t : Type := {
  predicted_total : nat;
  experimental_total : nat;
  true_positives : nat;
  false_positives : nat;
  false_negatives : nat;
  precision : float;
  recall : float;
  f1_score : float
}.
End Overall.

Module ByType.
Record t : Type := {
  predicted : nat;
  experimental : nat;
  tp : nat;
  fp : nat;
  fn : nat;
  precision : float;
  recall : float;
  f1 : float
}.
End ByType.

Section Comparator.

(** The type tags: any values that can be members of a set. *)
Context {T : Type} `{Countable T}.

(** The order in which [for itype in all_types] enumerates the set, in this
    call.  The order of a Python set depends on how the set was built and
    on the hashes of its members, not on its members alone: it belongs to
    the call, and a property that relates two calls gives each call its own
    [set_iter]. *)
Variable set_iter : gset T → list T.

(** The dictionary [compare_interactions] returns; ['by_type'] lists its
    items in insertion order. *)
Record comparison : Type := {
  overall : Overall.t;
  by_type : list (T * ByType.t)
}.

(** [tp / len(s) if s else 0.0] *)
Definition ratio (tp : nat) (s : gset (interaction T)) : float :=
  if decide (s = ∅) then fzero
  else int_truediv (Z.of_nat tp) (Z.of_nat (size s)).

(** [2 * p * r / (p + r) if (p + r) > 0 else 0.0] *)
Definition f_measure (p r : float) : float :=
  if flt (of_int 0) (fadd p r)
  then fdiv (fmul (fmul (of_int 2) p) r) (fadd p r)
  else fzero.

(** The loops of lines 197-207: the interactions of each type. *)
Definition group_by_type (interactions : list (interaction T))
  : gmap T (gset (interaction T)) :=
  foldl (λ by_type interaction,
           let itype := interaction.2 in
           let by_type :=
             match by_type !! itype with
             | None => <[itype := ∅]> by_type
             | Some _ => by_type
             end in
           <[itype := default ∅ (by_type !! itype) ∪ {[interaction]}]> by_type)
        ∅ interactions.

Definition compare_interactions (pred_interactions exp_interactions : list (interaction T))
  : comparison :=
  let pred_set : gset (interaction T) := list_to_set pred_interactions in
  let exp_set : gset (interaction T) := list_to_set exp_interactions in
  let tp := size (pred_set ∩ exp_set) in
  let fp := size (pred_set ∖ exp_set) in
  let fn := size (exp_set ∖ pred_set) in
  let precision := ratio tp pred_set in
  let recall := ratio tp exp_set in
  let f1 := f_measure precision recall in
  let pred_by_type := group_by_type pred_interactions in
  let exp_by_type := group_by_type exp_interactions in
  let all_types : gset T := dom pred_by_type ∪ dom exp_by_type in
  let type_metrics :=
    List.map (λ itype,
      let pred_type := default ∅ (pred_by_type !! itype) in
      let exp_type := default ∅ (exp_by_type !! itype) in
      let tp_type := size (pred_type ∩ exp_type) in
      let fp_type := size (pred_type ∖ exp_type) in
      let fn_type := size (exp_type ∖ pred_type) in
      let prec_type := ratio tp_type pred_type in
      let rec_type := ratio tp_type exp_type in
      let f1_type := f_measure prec_type rec_type in
      (itype,
       {| ByType.predicted := size pred_type;
          ByType.experimental := size exp_type;
          ByType.tp := tp_type;
          ByType.fp := fp_type;
          ByType.fn := fn_type;
          ByType.precision := prec_type;
          ByType.recall := rec_type;
          ByType.f1 := f1_type |}))
      (set_iter all_types) in
  {| overall :=
       {| Overall.predicted_total := size pred_set;
          Overall.experimental_total := size exp_set;
          Overall.true_positives := tp;
          Overall.false_positives := fp;
          Overall.false_negatives := fn;
          Overall.precision := precision;
          Overall.recall := recall;
          Overall.f1_score := f1 |};
     by_type := type_metrics |}.

End Comparator.

(** *** The per-type table of the report *)

(** [sorted(xs, key=key, reverse=True)]: a stable sort by descending key.
    [insert_desc] puts [x] after the items of larger key and before those
    of equal or smaller key. *)
Fixpoint insert_desc {A} (key : A → nat) (x : A) (xs : list A) : list A :=
  match xs with
  | [] => [x]
  | y :: xs' =>
      if key x <? key y then y :: insert_desc key x xs' else x :: xs
  end.

Definition sorted_desc {A} (key : A → nat) (xs : list A) : list A :=
  foldr (insert_desc key) [] xs.

(** The items in the order the loop of lines 314-322 writes them. *)
Definition by_type_rows (by_type : list (string * ByType.t))
  : list (string * ByType.t) :=
  sorted_desc (λ x, ByType.predicted x.2) by_type.

End Compare.

(** ** [04_analyze_interactions.py]: hot spots *)

Module HotSpots.

(** [identify_hot_spots], lines 155-170.  [residue_counts] lists the items
    of the dictionary in its order; [min_interactions] is any integer. *)
Definition identify_hot_spots (residue_counts : list (string * nat))
    (min_interactions : Z) : list (string * nat) :=
  let hot_spots :=
    List.filter (λ x, (min_interactions <=? Z.of_nat x.2)%Z) residue_counts in
  Compare.sorted_desc (λ x, x.2) hot_spots.

End HotSpots.

(** ** [06_compare_structures.py]: the report and the summary *)

Module Report.
Import Compare.

(** The float literals of the thresholds. *)
Definition float_0_4 : float := S754_finite false 7205759403792794 (-54).
Definition float_0_5 : float := S754_finite false 4503599627370496 (-53).
Definition float_0_6 : float := S754_finite false 5404319552844595 (-53).
Definition float_0_7 : float := S754_finite false 6305039478318694 (-53).
Definition float_0_8 : float := S754_finite false 7205759403792794 (-53).
Definition float_1_0 : float := S754_finite false 4503599627370496 (-52).
Definition float_2_0 : float := S754_finite false 4503599627370496 (-51).
Definition float_3_0 : float := S754_finite false 6755399441055744 (-51).

(** The dictionary [rmsd_results]: its entries ['CA'] and ['all'], each a
    result of [calculate_rmsd] when present. *)
Record rmsd_results : Type := {
  CA : option rmsd_result;
  all : option rmsd_result
}.

(** A line written to the report.  A line that prints numbers is kept as
    its label and its numbers; their formatting is not modelled. *)
Inductive written : Type :=
| Text (s : string)
| Rmsd (label : string) (rmsd : float) (n_atoms : nat).

(** A lookup of a key that the dictionary lacks. *)
Inductive report_error : Type := KeyError.

(** ["="*70] and ["-"*70] *)
Definition rule (c : ascii) : string := string_of_list_ascii (repeat c 70).

(** The quality line for the C-alpha RMSD, lines 268-276. *)
Definition rmsd_quality_line (ca_rmsd : float) : string :=
  if flt ca_rmsd float_1_0 then "Quality: ★★★★★ EXCELLENT (RMSD < 1.0 Å)"
  else if flt ca_rmsd float_2_0 then "Quality: ★★★★☆ GOOD (RMSD < 2.0 Å)"
  else if flt ca_rmsd float_3_0 then "Quality: ★★★☆☆ MODERATE (RMSD < 3.0 Å)"
  else "Quality: ★★☆☆☆ POOR (RMSD > 3.0 Å)".

(** The quality line for the F1 score, lines 296-304. *)
Definition f1_quality_line (f1 : float) : string :=
  if flt float_0_8 f1 then "Quality: ★★★★★ EXCELLENT agreement (F1 > 0.8)"
  else if flt float_0_6 f1 then "Quality: ★★★★☆ GOOD agreement (F1 > 0.6)"
  else if flt float_0_4 f1 then "Quality: ★★★☆☆ MODERATE agreement (F1 > 0.4)"
  else "Quality: ★★☆☆☆ POOR agreement (F1 < 0.4)".

(** The head of [generate_comparison_report], lines 254-277: the lines
    written, in order, and whether the function went on or raised.  Every
    dictionary [calculate_rmsd] returns has the key ['rmsd'], so the default
    of [.get('rmsd', 999)] is not reached. *)
Definition structural_alignment (results : rmsd_results)
  : list written * result report_error unit :=
  let head :=
    [Text (rule "="); Text "STRUCTURE PREDICTION VALIDATION REPORT";
     Text (rule "="); Text "";
     Text "STRUCTURAL ALIGNMENT"; Text (rule "-")] in
  match CA results with
  | None => (head, Raise KeyError)
  | Some ca =>
      let ca_line :=
        match error ca with
        | None => [Rmsd "C-alpha RMSD" (rmsd ca) (n_atoms ca)]
        | Some _ => []
        end in
      match all results with
      | None =>
          (* ['error' not in rmsd_results.get('all', {})] holds, and
             [rmsd_results['all']] is looked up *)
          (head ++ ca_line, Raise KeyError)
      | Some all_atoms =>
          let all_line :=
            match error all_atoms with
            | None => [Rmsd "All-atom RMSD" (rmsd all_atoms) (n_atoms all_atoms)]
            | Some _ => []
            end in
          (head ++ ca_line ++ all_line
           ++ [Text ""; Text (rmsd_quality_line (rmsd ca)); Text ""],
           Return ())
      end
  end.

(** The last line [main] prints, lines 413-421. *)
Definition summary_line (ca_rmsd f1 : float) : string :=
  if flt ca_rmsd float_2_0 && flt float_0_7 f1
  then "✓ EXCELLENT prediction quality!"
  else if flt ca_rmsd float_3_0 && flt float_0_5 f1
  then "✓ GOOD prediction quality"
  else "⚠ Moderate prediction quality - review details".

End Report.

(** * Vocabulary of the properties *)

(** [d[k] = v] on the items of a dict: the value of the first binding of [k]
    is replaced, or the binding is added at the end. *)
Fixpoint dict_set (k : string) (v : json) (d : list (string * json))
  : list (string * json) :=
  match d with
  | [] => [(k, v)]
  | (k', v') :: d' =>
      if String.eqb k k' then (k, v) :: d' else (k', v') :: dict_set k v d'
  end.

(** An atom path with fewer than four segments. *)
Definition malformed_path (path : string) : Prop :=
  length (path_parts path) < 4.

(** A contact that is not an object or whose partner path is malformed: the
    path is absent, or is not a string (a null, a number, a list, an
    object), or is a string of fewer than four segments. *)
Definition malformed_contact (contact : json) : Prop :=
  match contact with
  | JDict c =>
      match dict_get "bgn_atom" c with
      | Some (JStr path) => malformed_path path
      | Some _ => True
      | None => True
      end
  | _ => True
  end.

(** The malformed contacts that the two loops guard against, lines 80-91 of
    [04_analyze_interactions.py] and 153-161 of [06_compare_structures.py]:
    the contact is not an object, or its partner path is absent (the empty
    path is used) or is a string of fewer than four segments.  A partner
    path that is present and is not a string is not among them. *)
Definition skipped_contact (contact : json) : Prop :=
  match contact with
  | JDict c =>
      match dict_get "bgn_atom" c with
      | None => True
      | Some (JStr path) => malformed_path path
      | Some _ => False
      end
  | _ => True
  end.

(** [without bad data data']: [data'] is the contact map [data] less one
    entry whose key is malformed, or less one contact that is [bad]. *)
Inductive without (bad : json → Prop) : json → json → Prop :=
| skip_entry items1 key value items2 :
    malformed_path key →
    without bad
      (JDict (items1 ++ (key, value) :: items2))
      (JDict (items1 ++ items2))
| skip_contact items1 key atom_data contacts1 contact contacts2 items2 :
    bad contact →
    dict_get "contact" atom_data = Some (JList (contacts1 ++ contact :: contacts2)) →
    without bad
      (JDict (items1 ++ (key, JDict atom_data) :: items2))
      (JDict (items1
              ++ (key, JDict (dict_set "contact" (JList (contacts1 ++ contacts2))
                                atom_data))
              :: items2))
| skip_single_contact items1 key atom_data contact items2 :
    bad contact →
    (∀ contacts, contact ≠ JList contacts) →
    dict_get "contact" atom_data = Some contact →
    without bad
      (JDict (items1 ++ (key, JDict atom_data) :: items2))
      (JDict (items1 ++ items2)).

(** The contact map less one malformed entry or one malformed contact, and
    less one entry or contact that the loops guard against. *)
Definition without_malformed : json → json → Prop := without malformed_contact.
Definition without_skipped : json → json → Prop := without skipped_contact.


(** The degraded result of [calculate_rmsd]. *)
Definition degraded (msg : string) : Compare.rmsd_result :=
  {| Compare.rmsd := fzero; Compare.n_atoms := 0; Compare.atom_type := None;
     Compare.error := Some msg |}.

(** The exception [e] leaves the call: it is the outcome, not a field of a
    returned dictionary. *)
Definition propagates
    (out : list string * result Compare.exception Compare.rmsd_result)
    (e : Compare.exception) : Prop :=
  out.2 = Raise e.

(** The call ends in an exception. *)
Definition fatal
    (out : list string * result Compare.exception Compare.rmsd_result) : Prop :=
  ∃ e, propagates out e.

(** The order the specification asks of the per-type table: the larger
    predicted count first and, among equal counts, the smaller name first. *)
Definition row_precedes (a b : string * Compare.ByType.t) : Prop :=
  Compare.ByType.predicted b.2 < Compare.ByType.predicted a.2 ∨
  (Compare.ByType.predicted a.2 = Compare.ByType.predicted b.2 ∧
   String.leb a.1 b.1 = true).

(** A float that is neither negative nor a NaN. *)
Definition is_nonneg (x : float) : bool :=
  match x with
  | S754_nan => false
  | S754_zero _ => true
  | S754_infinity s | S754_finite s _ _ => negb s
  end.

(** The interactions of one type in a set. *)
Definition of_type {T : Type} `{Countable T} (t : T)
    (X : gset (Compare.interaction T)) : gset (Compare.interaction T) :=
  filter (λ i, i.2 = t) X.

(** * Concrete inputs *)

Module Scenario.
Import Compare.

(** The contact map of the specification's parsing scenario. *)
Definition contact_map : json :=
  JDict [("/A/10/ALA/CA",
          JDict [("contact",
                  JList [JDict [("bgn_atom", JStr "/B/20/GLY/CB");
                                ("type", JStr "hbond");
                                ("distance", JFloat float_3_2)]])])].

(** The record [extract_interactions] builds from it. *)
Definition contact_record : Analyze.interaction :=
  {| Analyze.chain1 := "A"; Analyze.resnum1 := "10";
     Analyze.resname1 := "ALA"; Analyze.atom1 := "CA";
     Analyze.chain2 := "B"; Analyze.resnum2 := "20";
     Analyze.resname2 := "GLY"; Analyze.atom2 := "CB";
     Analyze.type := JStr "hbond";
     Analyze.distance := float_3_2 |}.

(** The same map with a two-segment key in front, and with a contact that
    has no partner path. *)
Definition short_key_entry : string * json :=
  ("/A/10", JDict [("contact", JList [JDict [("bgn_atom", JStr "/B/20/GLY/CB")]])]).
Definition no_partner : json := JDict [("type", JStr "vdw")].
Definition good_contact : json :=
  JDict [("bgn_atom", JStr "/B/20/GLY/CB"); ("type", JStr "hbond");
         ("distance", JFloat float_3_2)].


(** Builtins for the concrete runs: no string denotes a float, and [sum]
    adds from the left, starting at the integer [0]. *)
Definition no_float (s : string) : option float := None.
Definition sum_left (xs : list float) : float := foldl fadd (of_int 0) xs.

(** Structures: a residue with its alpha carbon at [(x, 0, 0)]. *)
Definition ca (x : Z) : atom :=
  {| atom_name := "CA"; coord := (of_int x, fzero, fzero) |}.
Definition gly (x : Z) : residue :=
  {| resname := "GLY"; atoms := [ca x] |}.

(** A parser that knows two files, a two-residue predicted chain and a
    one-residue experimental chain; any other file holds no model. *)
Definition two_files (id file : string) : result exception structure :=
  if String.eqb file "pred.pdb" then Return [[[gly 0; gly 4]]]
  else if String.eqb file "exp.pdb" then Return [[[gly 1]]]
  else Return [].

Definition every_residue (r : residue) : bool := true.

Definition rms_zero (fixed moving : list atom) : result exception float :=
  Return fzero.

(** A parser that rejects every file. *)
Definition parse_failure : exception :=
  {| exc_class := "PDBConstructionException";
     exc_str := "Invalid or missing coordinate(s) at line 1." |}.
Definition unparsable (id file : string) : result exception structure :=
  Raise parse_failure.

(** A superimposer whose decomposition fails. *)
Definition svd_failure : exception :=
  {| exc_class := "LinAlgError"; exc_str := "SVD did not converge" |}.
Definition rms_fails (fixed moving : list atom) : result exception float :=
  Raise svd_failure.

(** The comparison scenario of the specification. *)
Definition predicted : list (interaction string) :=
  [("A:ALA10", "B:GLY20", "hbond")].
Definition experimental : list (interaction string) :=
  [("A:ALA10", "B:GLY20", "hbond"); ("A:ALA11", "B:GLY21", "vdw")].

(** One predicted interaction of each of two types, none observed. *)
Definition tied_prediction : list (interaction string) :=
  [("A:ALA10", "B:GLY20", "vdw"); ("A:ALA11", "B:GLY21", "hbond")].
Definition one_missed : ByType.t :=
  {| ByType.predicted := 1; ByType.experimental := 0;
     ByType.tp := 0; ByType.fp := 1; ByType.fn := 0;
     ByType.precision := fzero; ByType.recall := fzero; ByType.f1 := fzero |}.

End Scenario.

(** * Vocabulary of the parsers, the analysis and the selection of atoms *)

(** The tuple [parse_arpeggio_interactions] keeps of a contact, read off the
    record [extract_interactions] keeps of it. *)
Definition to_tuple (inter : Analyze.interaction) : Compare.interaction json :=
  (Analyze.residue_pair inter, Analyze.type inter).

(** The two lists [parse_arpeggio_interactions] returns, read off records. *)
Definition tuples (records : list Analyze.interaction)
  : list (Compare.interaction json) * list json :=
  (List.map to_tuple records, List.map Analyze.type records).

Definition pair_app {A B} (p q : list A * list B) : list A * list B :=
  (p.1 ++ q.1, p.2 ++ q.2).

(** A loop body that only appends to its accumulator: to one list, or to
    each of a pair of lists. *)
Definition appends {E X A} (body : list A → X → result E (list A)) : Prop :=
  ∀ acc x, body acc x = (new ← body [] x; Return (acc ++ new)).

Definition appends2 {E X A B}
    (body : list A * list B → X → result E (list A * list B)) : Prop :=
  ∀ acc x, body acc x = (new ← body ([], []) x; Return (pair_app acc new)).

(** What [parse_arpeggio_interactions] keeps true of its two lists: the tags
    are the third components, every residue pair is in order and every tag
    is hashable. *)
Definition well_parsed (parsed : list (Compare.interaction json) * list json) : Prop :=
  parsed.2 = parsed.1.*2 ∧
  Forall (λ i : Compare.interaction json,
            String.ltb i.1.2 i.1.1 = false ∧ hashable i.2 = true) parsed.1.

(** The identifiers [analyze_interactions] builds for the two residues. *)
Definition first_residue (inter : Analyze.interaction) : string :=
  residue_id (Analyze.chain1 inter) (Analyze.resname1 inter) (Analyze.resnum1 inter).
Definition second_residue (inter : Analyze.interaction) : string :=
  residue_id (Analyze.chain2 inter) (Analyze.resname2 inter) (Analyze.resnum2 inter).

(** The residues at the two ends of every interaction, with repetitions. *)
Definition residue_ends (interactions : list Analyze.interaction) : list string :=
  List.flat_map (λ inter, [first_residue inter; second_residue inter]) interactions.

(** The sum of the values of a dictionary of counts. *)
Definition total_count (counts : gmap string nat) : nat :=
  map_fold (λ _ n acc, n + acc) 0 counts.

(** The interaction read from its partner's side. *)
Definition swap_partners (inter : Analyze.interaction) : Analyze.interaction :=
  {| Analyze.chain1 := Analyze.chain2 inter; Analyze.resnum1 := Analyze.resnum2 inter;
     Analyze.resname1 := Analyze.resname2 inter; Analyze.atom1 := Analyze.atom2 inter;
     Analyze.chain2 := Analyze.chain1 inter; Analyze.resnum2 := Analyze.resnum1 inter;
     Analyze.resname2 := Analyze.resname1 inter; Analyze.atom2 := Analyze.atom1 inter;
     Analyze.type := Analyze.type inter;
     Analyze.distance := Analyze.distance inter |}.

(** The same contact, read from either side. *)
Definition same_contact (x y : Analyze.interaction) : Prop :=
  y = x ∨ y = swap_partners x.

(** One more interaction end at residue [r]. *)
Definition count_end (m : gmap string nat) (r : string) : gmap string nat :=
  <[r := default 0 (m !! r) + 1]> m.

(** The two dictionaries the loop of [analyze_interactions] fills. *)
Definition count_ends (interactions : list Analyze.interaction) : gmap string nat :=
  foldl (λ m inter, count_end (count_end m (first_residue inter)) (second_residue inter))
        ∅ interactions.

Definition group_types (interactions : list Analyze.interaction)
  : gmap (string * string) (list json) :=
  foldl (λ m inter,
           <[Analyze.residue_pair inter :=
               default [] (m !! Analyze.residue_pair inter) ++ [Analyze.type inter]]> m)
        ∅ interactions.

(** The residues of a structure, in traversal order. *)
Definition residues (s : Compare.structure) : list Compare.residue :=
  concat (concat s).

(** ** Further concrete inputs *)

Module Cases.
Import Compare Scenario.

(** The contact of the parsing scenario seen from the other residue. *)
Definition reverse_contact : list (string * json) :=
  [("bgn_atom", JStr "/A/10/ALA/CA"); ("type", JStr "hbond");
   ("distance", JFloat float_3_2)].
Definition forward_contact : list (string * json) :=
  [("bgn_atom", JStr "/B/20/GLY/CB"); ("type", JStr "hbond");
   ("distance", JFloat float_3_2)].

(** An entry whose contact names its partner by a number. *)
Definition numbered_partner : list (string * json) :=
  [("contact", JDict [("bgn_atom", JInt 20); ("type", JStr "hbond")])].

(** The contact map of the parsing scenario with one more contact, whose
    partner path is a null. *)
Definition null_partner : json :=
  JDict [("bgn_atom", JNull); ("type", JStr "hbond")].
Definition map_with_null_partner : json :=
  JDict [("/A/10/ALA/CA",
          JDict [("contact", JList [good_contact; null_partner])])].

(** A record whose type tag is a list. *)
Definition record_with_list_tag : Analyze.interaction :=
  {| Analyze.chain1 := "A"; Analyze.resnum1 := "10";
     Analyze.resname1 := "ALA"; Analyze.atom1 := "CA";
     Analyze.chain2 := "B"; Analyze.resnum2 := "20";
     Analyze.resname2 := "GLY"; Analyze.atom2 := "CB";
     Analyze.type := JList [JStr "hbond"];
     Analyze.distance := float_3_2 |}.

(** The dictionary [analyze_interactions] returns for the record of the
    parsing scenario. *)
Definition contact_analysis : Analyze.analysis :=
  {| Analyze.total_interactions := 1;
     Analyze.type_counts := [JStr "hbond"];
     Analyze.residue_pair_counts := group_types [contact_record];
     Analyze.residue_counts := count_ends [contact_record];
     Analyze.unique_residue_pairs := 1;
     Analyze.distance_stats :=
       {| Analyze.mean := Analyze.Float float_3_2;
          Analyze.min := Analyze.Float float_3_2;
          Analyze.max := Analyze.Float float_3_2 |} |}.

(** Residue counts with two residues at the threshold. *)
Definition counts : list (string * nat) :=
  [("A:ALA10", 2); ("B:GLY20", 3); ("A:SER11", 5); ("B:LYS21", 3)].

(** The predicted interaction listed twice, and an interaction that the
    experiment does not show. *)
Definition predicted_twice : list (interaction string) :=
  [("A:ALA10", "B:GLY20", "hbond"); ("A:ALA10", "B:GLY20", "hbond")].
Definition unobserved : list (interaction string) :=
  [("A:SER11", "B:LYS21", "ionic")].

(** A result of [calculate_rmsd] over one atom. *)
Definition one_atom : rmsd_result :=
  {| rmsd := fzero; n_atoms := 1; atom_type := Some "all"; error := None |}.

End Cases.

(** * Floats: signs of quotients and sums *)

Section FloatFacts.
Local Open Scope Z_scope.

Lemma shr_1_nonneg mrs : 0 ≤ shr_m mrs → 0 ≤ shr_m (shr_1 mrs).
Proof.
  destruct mrs as [m r s]; simpl.
  destruct m as [|p|p]; simpl; [lia | | lia].
  destruct p; simpl; lia.
Qed.

Lemma iter_pos_invariant {A} (P : A → Prop) (f : A → A) :
  (∀ x, P x → P (f x)) → ∀ n x, P x → P (SpecFloat.iter_pos f n x).
Proof.
  intros Hf n. induction n as [n IH|n IH|]; simpl; intros x Hx; auto.
Qed.

Lemma shr_nonneg mrs e n : 0 ≤ shr_m mrs → 0 ≤ shr_m (shr mrs e n).1.
Proof.
  intros Hm. destruct n as [|p|p]; simpl; try done.
  apply (iter_pos_invariant (λ r, 0 ≤ shr_m r)); auto using shr_1_nonneg.
Qed.

Lemma shr_fexp_nonneg m e l : 0 ≤ m → 0 ≤ shr_m (shr_fexp prec emax m e l).1.
Proof.
  intros Hm. unfold shr_fexp. apply shr_nonneg.
  destruct l as [|[]]; simpl; done.
Qed.

Lemma round_nearest_even_nonneg m l : 0 ≤ m → 0 ≤ round_nearest_even m l.
Proof.
  intros Hm. destruct l as [|[]]; simpl; try lia.
  destruct (Z.even m); lia.
Qed.

(** Rounding a non-negative mantissa gives a non-negative float. *)
Lemma binary_round_aux_nonneg m e l :
  0 ≤ m → is_nonneg (binary_round_aux prec emax false m e l) = true.
Proof.
  intros Hm. unfold binary_round_aux.
  pose proof (shr_fexp_nonneg m e l Hm) as H1.
  destruct (shr_fexp prec emax m e l) as [mrs' e'] eqn:E1. simpl in H1.
  pose proof (shr_fexp_nonneg _ e' loc_Exact
                (round_nearest_even_nonneg _ (loc_of_shr_record mrs') H1)) as H2.
  destruct (shr_fexp prec emax _ e' loc_Exact) as [mrs'' e''] eqn:E2. simpl in H2.
  destruct (shr_m mrs'') as [|p|p]; [done | | lia].
  destruct (e'' <=? emax - prec); done.
Qed.

Lemma of_int_nonneg z : 0 ≤ z → is_nonneg (of_int z) = true.
Proof.
  intros Hz. unfold of_int, binary_normalize.
  destruct z as [|p|p]; [done | | lia].
  unfold binary_round.
  destruct (shl_align _ _ _) as [mz ez]. apply binary_round_aux_nonneg. lia.
Qed.

Lemma digits2_pos_iter_xO p k :
  Zpos (digits2_pos (Pos.iter xO p k)) = Zpos (digits2_pos p) + Zpos k.
Proof.
  induction k as [|k IH] using Pos.peano_ind.
  - simpl. lia.
  - rewrite Pos.iter_succ. simpl. lia.
Qed.

Lemma pow2_half p n : 0 < n → Zpos p~0 < 2 ^ n → Zpos p < 2 ^ (n - 1).
Proof.
  intros Hn Hp. replace n with (Z.succ (n - 1)) in Hp by lia.
  rewrite Z.pow_succ_r in Hp by lia. lia.
Qed.

Lemma digits2_pos_le p n : 0 ≤ n → Zpos p < 2 ^ n → Zpos (digits2_pos p) ≤ n.
Proof.
  revert n. induction p as [p IH|p IH|]; intros n Hn Hp; simpl.
  - destruct (decide (n = 0)) as [->|]; [simpl in Hp; lia|].
    specialize (IH (n - 1) ltac:(lia) (pow2_half p n ltac:(lia) ltac:(lia))).
    lia.
  - destruct (decide (n = 0)) as [->|]; [simpl in Hp; lia|].
    specialize (IH (n - 1) ltac:(lia) (pow2_half p n ltac:(lia) Hp)).
    lia.
  - destruct (decide (n = 0)) as [->|]; [simpl in Hp; lia|]. lia.
Qed.

(** A mantissa of 53 digits with an exponent in range is already rounded. *)
Lemma binary_round_aux_exact s m e :
  Zpos (digits2_pos m) = 53 → -1074 ≤ e ≤ 971 →
  binary_round_aux prec emax s (Zpos m) e loc_Exact = S754_finite s m e.
Proof.
  intros Hd He.
  assert (Hshift :
            shr_fexp prec emax (Zpos m) e loc_Exact
            = ({| shr_m := Zpos m; shr_r := false; shr_s := false |}, e)).
  { unfold shr_fexp, fexp, SpecFloat.emin, Zdigits2.
    rewrite Hd. unfold prec, emax.
    replace (Z.max (53 + e - 53) (3 - 1024 - 53) - e) with 0 by lia.
    reflexivity. }
  unfold binary_round_aux. rewrite Hshift. simpl.
  rewrite Hshift. simpl.
  unfold prec, emax. replace (e <=? 1024 - 53) with true; [done|].
  symmetry. apply Z.leb_le. lia.
Qed.

(** Below [2^53] a positive integer converts to a finite positive float. *)
Lemma of_int_finite z :
  0 < z < 2 ^ 53 → ∃ m e, of_int z = S754_finite false m e.
Proof.
  intros [Hpos Hlt]. destruct z as [|p|p]; try lia.
  unfold of_int, binary_normalize, binary_round.
  pose proof (digits2_pos_le p 53 ltac:(lia) Hlt) as Hd.
  assert (Hd1 : 1 ≤ Zpos (digits2_pos p)) by lia.
  unfold fexp, SpecFloat.emin, prec, emax, shl_align.
  replace (Z.max (Zpos (digits2_pos p) + 0 - 53) (3 - 1024 - 53))
    with (Zpos (digits2_pos p) - 53) by lia.
  destruct (Zpos (digits2_pos p) - 53 - 0) as [|k|k] eqn:Ek; try lia.
  - eexists _, _. apply (binary_round_aux_exact false p 0); lia.
  - eexists _, _. apply (binary_round_aux_exact false); [|lia].
    rewrite digits2_pos_iter_xO. lia.
Qed.

Lemma fdiv_nonneg x m e :
  is_nonneg x = true → is_nonneg (fdiv x (S754_finite false m e)) = true.
Proof.
  intros Hx. unfold fdiv.
  destruct x as [s|s| |s mx ex]; simpl in Hx; try done;
    (destruct s; [done|]); [done|].
  simpl xorb. simpl SFdiv.
  destruct (SFdiv_core_binary prec emax (Zpos mx) ex (Zpos m) e)
    as [[mz ez] lz] eqn:E.
  apply binary_round_aux_nonneg.
  unfold SFdiv_core_binary in E.
  destruct (Z.div_eucl _ (Zpos m)) as [q r] eqn:Eq in E.
  injection E as <- _ _.
  match type of Eq with Z.div_eucl ?a _ = _ => assert (Ha : 0 ≤ a) end.
  { destruct (ex - e - _) as [|?|?]; try lia. apply Z.shiftl_nonneg. lia. }
  match type of Eq with Z.div_eucl ?a ?b = _ =>
    pose proof (Z.div_pos a b Ha ltac:(lia)) as Hq;
    unfold Z.div in Hq; rewrite Eq in Hq
  end.
  done.
Qed.

Lemma fadd_nonneg x y :
  is_nonneg x = true → is_nonneg y = true → is_nonneg (fadd x y) = true.
Proof.
  intros Hx Hy. unfold fadd.
  destruct x as [sx|sx| |sx mx ex], y as [sy|sy| |sy my ey]; simpl in *; try done.
  - by destruct sx, sy.
  - by destruct sx, sy.
  - destruct sx, sy; try done. simpl cond_Zopp.
    unfold binary_normalize.
    destruct (Zpos _ + Zpos _) as [|p|p] eqn:E; try lia.
    unfold binary_round.
    destruct (shl_align p _ _) as [mz ez]. apply binary_round_aux_nonneg. lia.
Qed.

(** [float_3_2] is the float nearest to 16/5. *)
Lemma float_3_2_nearest : int_truediv 16 5 = float_3_2.
Proof. reflexivity. Qed.

(** On such a float, [x > 0] fails exactly when [x == 0]. *)
Lemma flt_zero_nonneg x :
  is_nonneg x = true → flt (of_int 0) x = negb (feq x fzero).
Proof.
  unfold flt, feq. destruct x as [s|s| |s m e]; simpl; try done; by destruct s.
Qed.

End FloatFacts.

(** * Loops *)

Section Loops.
Context {E S X : Type}.
Implicit Types (body : S → X → result E S).

Lemma for_each_app xs1 xs2 body acc :
  for_each (xs1 ++ xs2) body acc
  = (acc' ← for_each xs1 body acc; for_each xs2 body acc').
Proof.
  revert acc. induction xs1 as [|x xs1 IH]; intros acc; simpl; [done|].
  destruct (body acc x) as [acc'|e]; simpl; [apply IH | done].
Qed.

(** An item the body skips can be dropped from the list. *)
Lemma for_each_skip xs1 x xs2 body acc :
  (∀ a, body a x = Return a) →
  for_each (xs1 ++ x :: xs2) body acc = for_each (xs1 ++ xs2) body acc.
Proof.
  intros Hskip. rewrite !for_each_app.
  destruct (for_each xs1 body acc) as [acc'|e]; simpl; [|done].
  by rewrite Hskip.
Qed.

(** Two items the body treats alike can be exchanged. *)
Lemma for_each_replace xs1 x x' xs2 body acc :
  (∀ a, body a x = body a x') →
  for_each (xs1 ++ x :: xs2) body acc = for_each (xs1 ++ x' :: xs2) body acc.
Proof.
  intros Hsame. rewrite !for_each_app.
  destruct (for_each xs1 body acc) as [acc'|e]; simpl; [|done].
  by rewrite Hsame.
Qed.

End Loops.

(** * Structural superposition: [calculate_rmsd] *)

Section SuperpositionFacts.
Import Compare.

Variable get_structure : string → string → result exception structure.
Variable is_aa : residue → bool.
Variable superimposer_rms : list atom → list atom → result exception float.

(** Whatever the parser and the superimposer do, the call returns a
    dictionary: the [except] clause turns every exception into one. *)
Lemma calculate_rmsd_returns available predicted_pdb experimental_pdb atom_type :
  (calculate_rmsd available get_structure is_aa superimposer_rms
     predicted_pdb experimental_pdb atom_type).2
  = Return
      (if negb available then degraded "BioPython not available"
       else
         match get_structure "predicted" predicted_pdb with
         | Raise e => degraded (exc_str e)
         | Return pred_structure =>
             match get_structure "experimental" experimental_pdb with
             | Raise e => degraded (exc_str e)
             | Return exp_structure =>
                 let pred_atoms := extract_atoms is_aa atom_type pred_structure in
                 let exp_atoms := extract_atoms is_aa atom_type exp_structure in
                 let n := Nat.min (length pred_atoms) (length exp_atoms) in
                 if n =? 0 then degraded "No matching atoms"
                 else
                   match superimposer_rms (firstn n exp_atoms) (firstn n pred_atoms) with
                   | Raise e => degraded (exc_str e)
                   | Return r =>
                       {| rmsd := r; n_atoms := n;
                          atom_type := Some atom_type; error := None |}
                   end
             end
         end).
Proof.
  unfold calculate_rmsd. destruct available; simpl; [|done].
  destruct (get_structure "predicted" predicted_pdb) as [ps|e]; simpl; [|done].
  destruct (get_structure "experimental" experimental_pdb) as [es|e]; simpl; [|done].
  destruct (_ =? 0); simpl; [done|].
  destruct (superimposer_rms _ _); done.
Qed.

(** C1.  Once both files are parsed, the two extracted atom sequences are cut
    to their prefixes of length [n = min(len(predicted), len(experimental))];
    the superimposer is given exactly these two prefixes (the experimental
    one as the fixed set), and the [n_atoms] reported with its result is
    [n].  Nothing else of the sequences is used: a superimposer that agrees
    with the given one on the two prefixes gives the same outcome. *)
Theorem calculate_rmsd_truncates predicted_pdb experimental_pdb atom_type
    pred_structure exp_structure :
  get_structure "predicted" predicted_pdb = Return pred_structure →
  get_structure "experimental" experimental_pdb = Return exp_structure →
  let pred_atoms := extract_atoms is_aa atom_type pred_structure in
  let exp_atoms := extract_atoms is_aa atom_type exp_structure in
  let n := Nat.min (length pred_atoms) (length exp_atoms) in
  firstn n pred_atoms `prefix_of` pred_atoms ∧
  firstn n exp_atoms `prefix_of` exp_atoms ∧
  length (firstn n pred_atoms) = n ∧
  length (firstn n exp_atoms) = n ∧
  (calculate_rmsd true get_structure is_aa superimposer_rms
     predicted_pdb experimental_pdb atom_type).2
  = Return
      (if n =? 0 then degraded "No matching atoms"
       else
         match superimposer_rms (firstn n exp_atoms) (firstn n pred_atoms) with
         | Return r =>
             {| rmsd := r; n_atoms := n;
                atom_type := Some atom_type; error := None |}
         | Raise e => degraded (exc_str e)
         end) ∧
  ∀ superimposer_rms',
    superimposer_rms' (firstn n exp_atoms) (firstn n pred_atoms)
    = superimposer_rms (firstn n exp_atoms) (firstn n pred_atoms) →
    calculate_rmsd true get_structure is_aa superimposer_rms'
      predicted_pdb experimental_pdb atom_type
    = calculate_rmsd true get_structure is_aa superimposer_rms
        predicted_pdb experimental_pdb atom_type.
Proof.
  intros Hp He pred_atoms exp_atoms n.
  split_and!.
  - apply prefix_take.
  - apply prefix_take.
  - rewrite length_take. lia.
  - rewrite length_take. lia.
  - rewrite calculate_rmsd_returns, Hp, He. simpl.
    fold pred_atoms exp_atoms n.
    destruct (n =? 0); [done|].
    destruct (superimposer_rms _ _); done.
  - intros superimposer_rms' Hsame.
    unfold calculate_rmsd. simpl. rewrite Hp, He. simpl.
    fold pred_atoms exp_atoms n. by rewrite Hsame.
Qed.

(** C2.  When the two extracted atom sequences give [n = 0], the call
    returns the dictionary with [rmsd] 0.0, [n_atoms] 0 and the error
    ["No matching atoms"]; it does not raise and prints nothing. *)
Theorem calculate_rmsd_no_matching_atoms predicted_pdb experimental_pdb atom_type
    pred_structure exp_structure :
  get_structure "predicted" predicted_pdb = Return pred_structure →
  get_structure "experimental" experimental_pdb = Return exp_structure →
  Nat.min (length (extract_atoms is_aa atom_type pred_structure))
          (length (extract_atoms is_aa atom_type exp_structure)) = 0 →
  calculate_rmsd true get_structure is_aa superimposer_rms
    predicted_pdb experimental_pdb atom_type
  = ([], Return {| rmsd := fzero; n_atoms := 0; atom_type := None;
                   error := Some "No matching atoms" |}).
Proof.
  intros Hp He Hn.
  unfold calculate_rmsd. simpl. rewrite Hp, He. simpl. rewrite Hn. done.
Qed.

(** C3, as the code has it.  A structure file that cannot be parsed, and a
    failure of the superimposer, are caught inside the call: it returns the
    dictionary with [rmsd] 0.0, [n_atoms] 0 and [error] set to the text of
    the exception, and no exception reaches the caller. *)
Theorem calculate_rmsd_catches predicted_pdb experimental_pdb atom_type :
  let out := calculate_rmsd true get_structure is_aa superimposer_rms
               predicted_pdb experimental_pdb atom_type in
  (∀ e, get_structure "predicted" predicted_pdb = Raise e →
        out = ([], Return (degraded (exc_str e)))) ∧
  (∀ pred_structure e,
        get_structure "predicted" predicted_pdb = Return pred_structure →
        get_structure "experimental" experimental_pdb = Raise e →
        out = ([], Return (degraded (exc_str e)))) ∧
  (∀ pred_structure exp_structure e,
        get_structure "predicted" predicted_pdb = Return pred_structure →
        get_structure "experimental" experimental_pdb = Return exp_structure →
        let pred_atoms := extract_atoms is_aa atom_type pred_structure in
        let exp_atoms := extract_atoms is_aa atom_type exp_structure in
        let n := Nat.min (length pred_atoms) (length exp_atoms) in
        n ≠ 0 →
        superimposer_rms (firstn n exp_atoms) (firstn n pred_atoms) = Raise e →
        out = ([], Return (degraded (exc_str e)))) ∧
  ¬ fatal out.
Proof.
  intros out. split_and!.
  - intros e Hp. unfold out, calculate_rmsd. simpl. by rewrite Hp.
  - intros ps e Hp He. unfold out, calculate_rmsd. simpl. by rewrite Hp, He.
  - intros ps es e Hp He pred_atoms exp_atoms n Hn Hs.
    unfold out, calculate_rmsd. simpl. rewrite Hp, He. simpl.
    fold pred_atoms exp_atoms n.
    destruct (Nat.eqb_spec n 0) as [|_]; [done|]. by rewrite Hs.
  - intros [e He]. unfold propagates, out in He.
    by rewrite calculate_rmsd_returns in He.
Qed.

(** C9, as the code has it.  When the library cannot be imported the module
    prints a warning and goes on; each call of [calculate_rmsd] then prints
    an error line and returns the dictionary with [rmsd] 0.0, [n_atoms] 0
    and the error ["BioPython not available"], without consulting the parser
    or the superimposer. *)
Theorem calculate_rmsd_unavailable predicted_pdb experimental_pdb atom_type :
  import_biopython false
  = (["WARNING: BioPython not available. Structural alignment disabled."], false) ∧
  calculate_rmsd false get_structure is_aa superimposer_rms
    predicted_pdb experimental_pdb atom_type
  = (["ERROR: BioPython required for RMSD calculation"],
     Return {| rmsd := fzero; n_atoms := 0; atom_type := None;
               error := Some "BioPython not available" |}).
Proof. done. Qed.

End SuperpositionFacts.

Section SuperpositionRuns.
Import Compare Scenario.

Lemma calculate_rmsd_truncates_witness :
  (calculate_rmsd true two_files every_residue rms_zero "pred.pdb" "exp.pdb" "CA").2
  = Return {| rmsd := fzero; n_atoms := 1; atom_type := Some "CA"; error := None |}.
Proof.
  exact (proj1 (proj2 (proj2 (proj2 (proj2
    (calculate_rmsd_truncates two_files every_residue rms_zero
       "pred.pdb" "exp.pdb" "CA" [[[gly 0; gly 4]]] [[[gly 1]]]
       eq_refl eq_refl)))))).
Defined.

Lemma calculate_rmsd_no_matching_atoms_witness :
  calculate_rmsd true two_files every_residue rms_zero "pred.pdb" "none.pdb" "CA"
  = ([], Return (degraded "No matching atoms")).
Proof.
  exact (calculate_rmsd_no_matching_atoms two_files every_residue rms_zero
           "pred.pdb" "none.pdb" "CA" [[[gly 0; gly 4]]] []
           eq_refl eq_refl eq_refl).
Defined.

Lemma calculate_rmsd_catches_witness :
  calculate_rmsd true unparsable every_residue rms_zero "pred.pdb" "exp.pdb" "CA"
  = ([], Return (degraded "Invalid or missing coordinate(s) at line 1.")).
Proof.
  exact (proj1 (calculate_rmsd_catches unparsable every_residue rms_zero
                  "pred.pdb" "exp.pdb" "CA") parse_failure eq_refl).
Defined.

(** C3, as stated, fails: an unparsable file and a failing decomposition both
    end in a returned dictionary, and neither exception reaches the caller. *)
Lemma calculate_rmsd_errors_do_not_propagate :
  unparsable "predicted" "pred.pdb" = Raise parse_failure ∧
  ¬ propagates
      (calculate_rmsd true unparsable every_residue rms_zero "pred.pdb" "exp.pdb" "CA")
      parse_failure ∧
  rms_fails [ca 1] [ca 0] = Raise svd_failure ∧
  calculate_rmsd true two_files every_residue rms_fails "pred.pdb" "exp.pdb" "CA"
  = ([], Return (degraded "SVD did not converge")) ∧
  ¬ propagates
      (calculate_rmsd true two_files every_residue rms_fails "pred.pdb" "exp.pdb" "CA")
      svd_failure.
Proof. split_and!; done. Qed.

(** C9, as stated, fails: without the library the call is not fatal, it
    returns a dictionary, call after call. *)
Lemma calculate_rmsd_unavailable_not_fatal :
  calculate_rmsd false two_files every_residue rms_zero "pred.pdb" "exp.pdb" "CA"
  = (["ERROR: BioPython required for RMSD calculation"],
     Return (degraded "BioPython not available")) ∧
  ¬ fatal
      (calculate_rmsd false two_files every_residue rms_zero
         "pred.pdb" "exp.pdb" "CA").
Proof. split; [done|]. intros [e He]. done. Qed.

End SuperpositionRuns.

(** * Contact records: [extract_interactions] and [parse_arpeggio_interactions] *)

Lemma dict_get_set k v d : dict_get k (dict_set k v d) = Some v.
Proof.
  induction d as [|[k' v'] d IH]; simpl.
  - by rewrite String.eqb_refl.
  - destruct (String.eqb k k') eqn:E; simpl; [by rewrite String.eqb_refl|].
    by rewrite E.
Qed.

Lemma malformed_path_ltb path :
  malformed_path path → (length (path_parts path) <? 4) = true.
Proof. intros Hp. by apply Nat.ltb_lt. Qed.

Section Parsing.
Variable float_of_str : string → option float.
Variable py_sum : list float → float.

Lemma extract_entry_malformed_key acc key value :
  malformed_path key →
  Analyze.extract_entry float_of_str acc (key, value) = Return acc.
Proof.
  intros Hk. unfold Analyze.extract_entry.
  destruct value; try done. by rewrite malformed_path_ltb.
Qed.

Lemma parse_entry_malformed_key acc key value :
  malformed_path key → Compare.parse_entry acc (key, value) = Return acc.
Proof.
  intros Hk. unfold Compare.parse_entry.
  destruct value as [| | | | | |ad]; try done.
  destruct (dict_get "contact" ad); [|done]. by rewrite malformed_path_ltb.
Qed.

Lemma extract_contact_skipped c1 n1 r1 a1 acc contact :
  skipped_contact contact →
  Analyze.extract_contact float_of_str c1 n1 r1 a1 acc contact = Return acc.
Proof.
  intros Hc. unfold Analyze.extract_contact.
  destruct contact as [| | | | | |c]; try done. simpl in Hc.
  destruct (dict_get "bgn_atom" c) as [[| | | |path| |]|]; simpl; try done.
  by rewrite malformed_path_ltb.
Qed.

Lemma parse_contact_skipped res1 acc contact :
  skipped_contact contact → Compare.parse_contact res1 acc contact = Return acc.
Proof.
  intros Hc. unfold Compare.parse_contact. destruct acc as [interactions tags].
  destruct contact as [| | | | | |c]; try done. simpl in Hc.
  destruct (dict_get "bgn_atom" c) as [[| | | |path| |]|]; simpl; try done.
  by rewrite malformed_path_ltb.
Qed.

(** Dropping a contact that the loop passes over from the contacts of an
    entry does not change what the entry contributes. *)
Lemma extract_entry_without_contact acc key atom_data atom_data'
    contacts1 contact contacts2 :
  skipped_contact contact →
  dict_get "contact" atom_data = Some (JList (contacts1 ++ contact :: contacts2)) →
  dict_get "contact" atom_data' = Some (JList (contacts1 ++ contacts2)) →
  Analyze.extract_entry float_of_str acc (key, JDict atom_data)
  = Analyze.extract_entry float_of_str acc (key, JDict atom_data').
Proof.
  intros Hc Had Had'. unfold Analyze.extract_entry. rewrite Had, Had'.
  destruct (_ <? 4); [done|].
  destruct (firstn 4 (path_parts key)) as [|? [|? [|? [|? [|]]]]]; try done.
  apply for_each_skip. intros b. by apply extract_contact_skipped.
Qed.

Lemma parse_entry_without_contact acc key atom_data atom_data'
    contacts1 contact contacts2 :
  skipped_contact contact →
  dict_get "contact" atom_data = Some (JList (contacts1 ++ contact :: contacts2)) →
  dict_get "contact" atom_data' = Some (JList (contacts1 ++ contacts2)) →
  Compare.parse_entry acc (key, JDict atom_data)
  = Compare.parse_entry acc (key, JDict atom_data').
Proof.
  intros Hc Had Had'. unfold Compare.parse_entry. rewrite Had, Had'.
  destruct (_ <? 4); [done|].
  destruct (firstn 4 (path_parts key)) as [|? [|? [|? [|? [|]]]]]; try done.
  apply for_each_skip. intros b. by apply parse_contact_skipped.
Qed.

(** An entry whose only contact is passed over contributes nothing. *)
Lemma extract_entry_single_skipped acc key atom_data contact :
  skipped_contact contact → (∀ contacts, contact ≠ JList contacts) →
  dict_get "contact" atom_data = Some contact →
  Analyze.extract_entry float_of_str acc (key, JDict atom_data) = Return acc.
Proof.
  intros Hc Hl Had. unfold Analyze.extract_entry. rewrite Had.
  destruct (Nat.ltb_spec (length (path_parts key)) 4) as [|Hlen]; [done|].
  destruct (path_parts key) as [|? [|? [|? [|? ?]]]]; simpl in Hlen; try lia.
  assert (Hcs : match contact with JList l => l | _ => [contact] end = [contact]).
  { destruct contact as [| | | | |cs|]; try done. by specialize (Hl cs). }
  cbn [firstn]. cbv zeta. rewrite Hcs. cbn [for_each].
  by rewrite extract_contact_skipped.
Qed.

Lemma parse_entry_single_skipped acc key atom_data contact :
  skipped_contact contact → (∀ contacts, contact ≠ JList contacts) →
  dict_get "contact" atom_data = Some contact →
  Compare.parse_entry acc (key, JDict atom_data) = Return acc.
Proof.
  intros Hc Hl Had. unfold Compare.parse_entry. rewrite Had.
  destruct (Nat.ltb_spec (length (path_parts key)) 4) as [|Hlen]; [done|].
  destruct (path_parts key) as [|? [|? [|? [|? ?]]]]; simpl in Hlen; try lia.
  assert (Hcs : match contact with JList l => l | _ => [contact] end = [contact]).
  { destruct contact as [| | | | |cs|]; try done. by specialize (Hl cs). }
  cbn [firstn]. cbv zeta. rewrite Hcs. cbn [for_each].
  by rewrite parse_contact_skipped.
Qed.

(** C4.  The contact map of the scenario yields exactly one interaction.
    [extract_interactions] returns the one record; its residue pair is the
    sorted pair [("A:ALA10", "B:GLY20")], its type is ["hbond"] and its
    distance is 3.2.  [parse_arpeggio_interactions] returns the one tuple of
    that sorted pair and type, and counts the type once. *)
Theorem scenario_contact_map_parses :
  Analyze.extract_interactions float_of_str Scenario.contact_map
  = Return [Scenario.contact_record] ∧
  Analyze.residue_pair Scenario.contact_record = ("A:ALA10", "B:GLY20") ∧
  String.ltb "A:ALA10" "B:GLY20" = true ∧
  Analyze.type Scenario.contact_record = JStr "hbond" ∧
  Analyze.distance Scenario.contact_record = float_3_2 ∧
  Compare.parse_arpeggio_interactions Scenario.contact_map
  = Return ([("A:ALA10", "B:GLY20", JStr "hbond")], [JStr "hbond"]).
Proof. split_and!; reflexivity. Qed.

(** X22.  An entry whose key has fewer than four segments, and a contact that
    is not an object or whose partner path is absent or is a string of fewer
    than four segments, are skipped without an exception: both parsers
    return for the contact map exactly what they return for the map without
    that entry or contact, records, their order and any exception
    included. *)
Lemma guarded_entries_are_skipped data data' :
  without_skipped data data' →
  Analyze.extract_interactions float_of_str data
  = Analyze.extract_interactions float_of_str data' ∧
  Compare.parse_arpeggio_interactions data
  = Compare.parse_arpeggio_interactions data'.
Proof.
  intros Hskip.
  destruct Hskip as [items1 key value items2 Hk
                    |items1 key ad cs1 c cs2 items2 Hc Had
                    |items1 key ad c items2 Hc Hl Had]; simpl.
  - split.
    + apply for_each_skip. intros a. by apply extract_entry_malformed_key.
    + apply for_each_skip. intros a. by apply parse_entry_malformed_key.
  - split.
    + apply for_each_replace. intros a.
      apply (extract_entry_without_contact _ _ _ _ cs1 c cs2); try done.
      apply dict_get_set.
    + apply for_each_replace. intros a.
      apply (parse_entry_without_contact _ _ _ _ cs1 c cs2); try done.
      apply dict_get_set.
  - split.
    + apply for_each_skip. intros a.
      by apply (extract_entry_single_skipped _ _ _ c).
    + apply for_each_skip. intros a.
      by apply (parse_entry_single_skipped _ _ _ c).
Qed.

(** A malformed contact is one that the loops pass over, or has a partner
    path that is present and is not a string. *)
Lemma malformed_contact_cases contact :
  malformed_contact contact ↔
  skipped_contact contact ∨
  ∃ c v, contact = JDict c ∧ dict_get "bgn_atom" c = Some v ∧
         ∀ path, v ≠ JStr path.
Proof.
  split.
  - destruct contact as [| | | | | |c]; try (by left). simpl.
    destruct (dict_get "bgn_atom" c) as [v|] eqn:E; [|by left].
    destruct v as [| | | |path| |]; try (by left);
      intros _; right; eexists c, _;
      (split_and!; [reflexivity | exact E | intros path'; discriminate]).
  - intros [Hs|(c & v & -> & E & Hv)].
    + destruct contact as [| | | | | |c]; try done. simpl in *.
      by destruct (dict_get "bgn_atom" c) as [[| | | |path| |]|].
    + simpl. rewrite E. destruct v as [| | | |path| |]; try done.
      by specialize (Hv path).
Qed.

(** C8.  A contact whose partner path is present and is not a string is
    malformed, and is not skipped.  On the contact map of the parsing
    scenario with one more contact, whose ['bgn_atom'] is a null, both
    parsers raise [AttributeError] (from [.strip]) and return no record;
    on the map without that contact they return the record of the scenario.
    The presence of the malformed contact changes what is extracted from
    the well-formed rest. *)
Theorem malformed_partner_path_raises :
  malformed_contact Cases.null_partner ∧
  ¬ skipped_contact Cases.null_partner ∧
  without_malformed Cases.map_with_null_partner Scenario.contact_map ∧
  Analyze.extract_interactions float_of_str Cases.map_with_null_partner
  = Raise AttributeError ∧
  Compare.parse_arpeggio_interactions Cases.map_with_null_partner
  = Raise AttributeError ∧
  Analyze.extract_interactions float_of_str Scenario.contact_map
  = Return [Scenario.contact_record] ∧
  Compare.parse_arpeggio_interactions Scenario.contact_map
  = Return ([("A:ALA10", "B:GLY20", JStr "hbond")], [JStr "hbond"]).
Proof.
  split_and!; [exact I | intros [] | | reflexivity ..].
  exact (skip_contact malformed_contact [] "/A/10/ALA/CA"
             [("contact", JList [Scenario.good_contact; Cases.null_partner])]
             [Scenario.good_contact] Cases.null_partner [] [] I eq_refl).
Qed.

(** ** Distance statistics *)




Lemma count_types_from counted (interactions : list Analyze.interaction) :
  Forall (λ inter, hashable (Analyze.type inter) = true) interactions →
  for_each interactions Analyze.count_type counted
  = Return (counted ++ List.map Analyze.type interactions).
Proof.
  intros Hh. revert counted.
  induction Hh as [|i l Hi _ IH]; intros counted; cbn [for_each List.map].
  - by rewrite app_nil_r.
  - assert (Hstep : Analyze.count_type counted i
                    = Return (counted ++ [Analyze.type i]))
      by (unfold Analyze.count_type; by rewrite Hi).
    rewrite Hstep. cbn [mbind result_bind bind].
    rewrite IH. by rewrite <- app_assoc.
Qed.



End Parsing.

Section ParsingRuns.
Import Scenario.

Lemma guarded_entries_are_skipped_witness :
  Analyze.extract_interactions no_float
    (JDict ([] ++ short_key_entry
               :: [("/A/10/ALA/CA", JDict [("contact", JList [good_contact])])]))
  = Analyze.extract_interactions no_float
      (JDict ([] ++ [("/A/10/ALA/CA", JDict [("contact", JList [good_contact])])])) ∧
  Compare.parse_arpeggio_interactions
    (JDict ([] ++ short_key_entry
               :: [("/A/10/ALA/CA", JDict [("contact", JList [good_contact])])]))
  = Compare.parse_arpeggio_interactions
      (JDict ([] ++ [("/A/10/ALA/CA", JDict [("contact", JList [good_contact])])])).
Proof.
  apply (guarded_entries_are_skipped no_float).
  apply (skip_entry _ [] "/A/10"). unfold malformed_path. vm_compute. lia.
Defined.


End ParsingRuns.

(** * Interaction comparison: [compare_interactions] *)

Section ComparatorFacts.
Import Compare.
Context {T : Type} {T_eq_dec : EqDecision T} {T_countable : Countable T}.
Variable set_iter : gset T → list T.
Implicit Types (X Y : gset (interaction T)) (l : list (interaction T)) (t : T).

Lemma size_list_to_set_le l : size (list_to_set l : gset (interaction T)) ≤ length l.
Proof.
  induction l as [|x l IH].
  { rewrite list_to_set_nil, size_empty. done. }
  rewrite list_to_set_cons, size_union_alt, size_singleton.
  assert (Hsub : size (list_to_set l ∖ {[x]} : gset (interaction T))
                 ≤ size (list_to_set l : gset (interaction T))).
  { apply subseteq_size. intros y Hy. apply elem_of_difference in Hy. tauto. }
  simpl. lia.
Qed.

Lemma ratio_nonneg tp X :
  (Z.of_nat (size X) < 2 ^ 53)%Z → is_nonneg (ratio tp X) = true.
Proof.
  intros Hb. unfold ratio. destruct (decide (X = ∅)) as [|Hne]; [done|].
  assert (size X ≠ 0) by (intros ?%size_empty_iff; by apply Hne, leibniz_equiv).
  unfold int_truediv.
  destruct (of_int_finite (Z.of_nat (size X))) as (m & e & ->); [lia|].
  apply fdiv_nonneg, of_int_nonneg. lia.
Qed.

(** The guard [(p + r) > 0] excludes exactly a zero denominator. *)
Lemma f_measure_zero_guard p r :
  is_nonneg p = true → is_nonneg r = true →
  f_measure p r
  = if feq (fadd p r) fzero then fzero
    else fdiv (fmul (fmul (of_int 2) p) r) (fadd p r).
Proof.
  intros Hp Hr. unfold f_measure.
  rewrite (flt_zero_nonneg _ (fadd_nonneg p r Hp Hr)).
  by destruct (feq _ _).
Qed.

(** C5.  The overall counts are the sizes of the intersection and of the
    two differences of the sets of the two collections; precision and recall
    are [tp] over the size of the predicted and of the experimental set, and
    0.0 when that set is empty; the F1 score is [2·p·r / (p + r)], and 0.0
    when [p + r] is 0.  The collections hold fewer than [2^53] interactions,
    so that their sizes are floats. *)
Theorem compare_interactions_overall pred_interactions exp_interactions :
  (Z.of_nat (length pred_interactions) < 2 ^ 53)%Z →
  (Z.of_nat (length exp_interactions) < 2 ^ 53)%Z →
  let predictedSet : gset (interaction T) := list_to_set pred_interactions in
  let experimentalSet : gset (interaction T) := list_to_set exp_interactions in
  let o := overall (compare_interactions set_iter pred_interactions exp_interactions) in
  let tp := Overall.true_positives o in
  let precision := Overall.precision o in
  let recall := Overall.recall o in
  tp = size (predictedSet ∩ experimentalSet) ∧
  Overall.false_positives o = size (predictedSet ∖ experimentalSet) ∧
  Overall.false_negatives o = size (experimentalSet ∖ predictedSet) ∧
  precision
  = (if decide (size predictedSet = 0) then fzero
     else int_truediv (Z.of_nat tp) (Z.of_nat (size predictedSet))) ∧
  recall
  = (if decide (size experimentalSet = 0) then fzero
     else int_truediv (Z.of_nat tp) (Z.of_nat (size experimentalSet))) ∧
  Overall.f1_score o
  = (if feq (fadd precision recall) fzero then fzero
     else fdiv (fmul (fmul (of_int 2) precision) recall) (fadd precision recall)).
Proof.
  intros Hp He predictedSet experimentalSet o tp precision recall.
  assert (Hratio : ∀ n X, ratio n X
            = if decide (size X = 0) then fzero
              else int_truediv (Z.of_nat n) (Z.of_nat (size X))).
  { intros n X. unfold ratio.
    destruct (decide (size X = 0)) as [Hz|Hnz], (decide (X = ∅)) as [Hx|Hne];
      try done.
    - apply size_empty_iff, leibniz_equiv in Hz. done.
    - rewrite Hx, size_empty in Hnz. done. }
  split_and!; try done.
  - apply Hratio.
  - apply Hratio.
  - apply f_measure_zero_guard; apply ratio_nonneg.
    + pose proof (size_list_to_set_le pred_interactions). lia.
    + pose proof (size_list_to_set_le exp_interactions). lia.
Qed.


Lemma elem_of_of_type t X i : i ∈ of_type t X ↔ i.2 = t ∧ i ∈ X.
Proof. unfold of_type. apply (elem_of_filter (λ j : interaction T, j.2 = t)). Qed.

Lemma of_type_empty t : of_type t ∅ = ∅.
Proof.
  apply set_eq. intros i. rewrite elem_of_of_type, elem_of_empty. tauto.
Qed.

Lemma of_type_union t X Y : of_type t (X ∪ Y) = of_type t X ∪ of_type t Y.
Proof.
  apply set_eq. intros i. rewrite elem_of_union, !elem_of_of_type, elem_of_union.
  tauto.
Qed.

Lemma of_type_singleton t i :
  of_type t {[i]} = if decide (i.2 = t) then {[i]} else ∅.
Proof.
  apply set_eq. intros j. rewrite elem_of_of_type, elem_of_singleton.
  case_decide as Ht.
  - rewrite elem_of_singleton. split; [tauto|]. by intros ->.
  - rewrite elem_of_empty. split; [|tauto]. intros [Hj ->]. done.
Qed.

Lemma of_type_intersection t X Y :
  of_type t X ∩ of_type t Y = of_type t (X ∩ Y).
Proof.
  apply set_eq. intros i.
  rewrite elem_of_intersection, !elem_of_of_type, elem_of_intersection. tauto.
Qed.

Lemma of_type_difference t X Y :
  of_type t X ∖ of_type t Y = of_type t (X ∖ Y).
Proof.
  apply set_eq. intros i.
  rewrite elem_of_difference, !elem_of_of_type, elem_of_difference. tauto.
Qed.

Lemma of_type_absent t l : t ∉ l.*2 → of_type t (list_to_set l) = ∅.
Proof.
  intros Hin. apply set_eq. intros i.
  rewrite elem_of_of_type, elem_of_list_to_set, elem_of_empty.
  split; [|tauto]. intros [<- Hi]. apply Hin. by apply list_elem_of_fmap_2.
Qed.

Lemma group_by_type_snoc l i :
  group_by_type (l ++ [i])
  = <[i.2 := default ∅ (group_by_type l !! i.2) ∪ {[i]}]> (group_by_type l).
Proof.
  unfold group_by_type. rewrite foldl_snoc. cbv zeta.
  match goal with |- context [foldl ?f ?e l] => set (m := foldl f e l) end.
  destruct (m !! i.2) as [s|] eqn:E.
  - by rewrite E.
  - rewrite lookup_insert_eq. simpl. by rewrite insert_insert_eq.
Qed.

(** Each key of the grouping holds the interactions of that type. *)
Lemma group_by_type_lookup l t :
  group_by_type l !! t
  = if decide (t ∈ l.*2) then Some (of_type t (list_to_set l)) else None.
Proof.
  induction l as [|i l IH] using rev_ind.
  - rewrite decide_False by apply not_elem_of_nil. apply lookup_empty.
  - rewrite group_by_type_snoc, fmap_app, list_to_set_app_L, of_type_union.
    simpl. rewrite union_empty_r_L, of_type_singleton.
    destruct (decide (i.2 = t)) as [<-|Hne].
    + rewrite lookup_insert_eq, decide_True
        by (apply elem_of_app; right; apply list_elem_of_singleton; done).
      rewrite IH. f_equal. case_decide as Hin; simpl; [done|].
      by rewrite of_type_absent.
    + rewrite lookup_insert_ne, union_empty_r_L by done. rewrite IH.
      destruct (decide (t ∈ l.*2)) as [Hin|Hin].
      * rewrite decide_True; [done|]. apply elem_of_app. by left.
      * rewrite decide_False; [done|].
        intros [?|Hi%list_elem_of_singleton]%elem_of_app; done.
Qed.

Lemma group_by_type_default l t :
  default ∅ (group_by_type l !! t) = of_type t (list_to_set l).
Proof.
  rewrite group_by_type_lookup. case_decide as Hin; simpl; [done|].
  by rewrite of_type_absent.
Qed.

Lemma group_by_type_dom l t : t ∈ dom (group_by_type l) ↔ t ∈ l.*2.
Proof.
  rewrite elem_of_dom, group_by_type_lookup.
  case_decide; split; intros Hs; try done; by destruct Hs.
Qed.

(** The sizes of the types' shares of a set add up to its size. *)
Lemma size_of_type_sum (types : list T) X :
  NoDup types → (∀ i, i ∈ X → i.2 ∈ types) →
  sum_list_with (λ t, size (of_type t X)) types = size X.
Proof.
  intros Hnd. induction X as [|i X Hi IH] using set_ind_L; intros Hcov.
  - rewrite size_empty. clear Hnd Hcov.
    induction types as [|t ts IHts]; simpl; [done|].
    by rewrite of_type_empty, size_empty, IHts.
  - rewrite size_union, size_singleton
      by (intros j ->%elem_of_singleton; done).
    rewrite <- IH
      by (intros j Hj; apply Hcov, elem_of_union; by right).
    assert (Hit : i.2 ∈ types).
    { apply Hcov, elem_of_union. left. by apply elem_of_singleton. }
    clear IH Hcov. induction Hnd as [|t ts Ht Hnd IHts]; [by apply elem_of_nil in Hit|].
    simpl. rewrite of_type_union, of_type_singleton.
    rewrite size_union.
    2: { intros j Hj [_ HjX]%elem_of_of_type. case_decide; [|by apply elem_of_empty in Hj].
         apply elem_of_singleton in Hj as ->. done. }
    destruct (decide (i.2 = t)) as [<-|Hne].
    + rewrite size_singleton.
      assert (Hrest : sum_list_with (λ t, size (of_type t ({[i]} ∪ X))) ts
                      = sum_list_with (λ t, size (of_type t X)) ts).
      { clear IHts Hnd Hit. induction ts as [|t' ts IHts']; simpl; [done|].
        rewrite of_type_union, of_type_singleton.
        rewrite decide_False by (intros Heq; apply Ht; rewrite Heq; by left).
        rewrite union_empty_l_L, IHts'; [done|].
        intros Hin. apply Ht. by right. }
      rewrite Hrest. lia.
    + rewrite size_empty.
      apply elem_of_cons in Hit as [|Hit]; [done|].
      rewrite (IHts Hit). simpl. lia.
Qed.

Lemma sum_list_with_map {A B} (f : B → nat) (g : A → B) (xs : list A) :
  sum_list_with f (List.map g xs) = sum_list_with (λ x, f (g x)) xs.
Proof. induction xs as [|x xs IH]; simpl; [done | by rewrite IH]. Qed.

Lemma sum_list_with_ext {A} (f g : A → nat) (xs : list A) :
  (∀ x, f x = g x) → sum_list_with f xs = sum_list_with g xs.
Proof. intros Hfg. induction xs as [|x xs IH]; simpl; [done | by rewrite Hfg, IH]. Qed.

Lemma fst_map_pair {A B} (g : A → B) (xs : list A) :
  (List.map (λ x, (x, g x)) xs).*1 = xs.
Proof. induction xs as [|x xs IH]; simpl; [done | by f_equal]. Qed.

Hypothesis set_iter_enumerates : ∀ s : gset T, set_iter s ≡ₚ elements s.

Lemma set_iter_NoDup (s : gset T) : NoDup (set_iter s).
Proof. rewrite set_iter_enumerates. apply NoDup_elements. Qed.

Lemma elem_of_set_iter (s : gset T) t : t ∈ set_iter s ↔ t ∈ s.
Proof. rewrite set_iter_enumerates. apply elem_of_elements. Qed.

(** C6.  The per-type table has one row for each type that occurs in either
    collection, and the [tp], [fp] and [fn] of its rows add up to the overall
    true positives, false positives and false negatives, in whatever order
    the set of types is enumerated. *)
Theorem per_type_counts_add_up pred_interactions exp_interactions :
  let c := compare_interactions set_iter pred_interactions exp_interactions in
  NoDup (by_type c).*1 ∧
  (∀ t, t ∈ (by_type c).*1 ↔
        ∃ i, (i ∈ pred_interactions ∨ i ∈ exp_interactions) ∧ i.2 = t) ∧
  sum_list_with (λ x, ByType.tp x.2) (by_type c)
  = Overall.true_positives (overall c) ∧
  sum_list_with (λ x, ByType.fp x.2) (by_type c)
  = Overall.false_positives (overall c) ∧
  sum_list_with (λ x, ByType.fn x.2) (by_type c)
  = Overall.false_negatives (overall c).
Proof.
  intros c.
  set (all_types := dom (group_by_type pred_interactions)
                    ∪ dom (group_by_type exp_interactions) : gset T).
  assert (Hkeys : (by_type c).*1 = set_iter all_types).
  { unfold c, compare_interactions. cbn [by_type]. fold all_types.
    apply fst_map_pair. }
  assert (Hall : ∀ t, t ∈ set_iter all_types ↔
            t ∈ pred_interactions.*2 ∨ t ∈ exp_interactions.*2).
  { intros t. unfold all_types.
    by rewrite elem_of_set_iter, elem_of_union, !group_by_type_dom. }
  assert (Hsum : ∀ X : gset (interaction T),
            (∀ i, i ∈ X → i ∈ pred_interactions ∨ i ∈ exp_interactions) →
            sum_list_with (λ t, size (of_type t X)) (set_iter all_types) = size X).
  { intros X HX. apply size_of_type_sum; [apply set_iter_NoDup|].
    intros i Hi. apply Hall.
    destruct (HX i Hi); [left | right]; by apply list_elem_of_fmap_2. }
  split_and!.
  - rewrite Hkeys. apply set_iter_NoDup.
  - intros t. rewrite Hkeys, Hall. split.
    + intros [Ht|Ht]; apply list_elem_of_fmap in Ht as (i & -> & Hi); eauto.
    + intros (i & [Hi|Hi] & <-); [left | right]; by apply list_elem_of_fmap_2.
  - unfold c, compare_interactions. cbn [by_type overall Overall.true_positives].
    fold all_types. rewrite sum_list_with_map. cbn [snd ByType.tp].
    rewrite <- Hsum.
    + apply sum_list_with_ext. intros t.
      by rewrite !group_by_type_default, of_type_intersection.
    + intros i [Hi _]%elem_of_intersection. left. by apply elem_of_list_to_set in Hi.
  - unfold c, compare_interactions. cbn [by_type overall Overall.false_positives].
    fold all_types. rewrite sum_list_with_map. cbn [snd ByType.fp].
    rewrite <- Hsum.
    + apply sum_list_with_ext. intros t.
      by rewrite !group_by_type_default, of_type_difference.
    + intros i [Hi _]%elem_of_difference. left. by apply elem_of_list_to_set in Hi.
  - unfold c, compare_interactions. cbn [by_type overall Overall.false_negatives].
    fold all_types. rewrite sum_list_with_map. cbn [snd ByType.fn].
    rewrite <- Hsum.
    + apply sum_list_with_ext. intros t.
      by rewrite !group_by_type_default, of_type_difference.
    + intros i [Hi _]%elem_of_difference. right. by apply elem_of_list_to_set in Hi.
Qed.

End ComparatorFacts.

Section ComparatorRuns.
Import Compare Scenario.

Lemma compare_interactions_overall_witness :
  let o := overall (compare_interactions elements predicted experimental) in
  Overall.true_positives o = 1 ∧
  Overall.false_positives o = 0 ∧
  Overall.false_negatives o = 1 ∧
  Overall.precision o = S754_finite false 4503599627370496 (-52) ∧
  Overall.recall o = S754_finite false 4503599627370496 (-53) ∧
  Overall.f1_score o = S754_finite false 6004799503160661 (-53).
Proof.
  exact (compare_interactions_overall elements predicted experimental
           eq_refl eq_refl).
Defined.

Lemma per_type_counts_add_up_witness :
  let c := compare_interactions elements predicted experimental in
  sum_list_with (λ x, ByType.tp x.2) (by_type c) = 1 ∧
  sum_list_with (λ x, ByType.fp x.2) (by_type c) = 0 ∧
  sum_list_with (λ x, ByType.fn x.2) (by_type c) = 1.
Proof.
  exact (proj2 (proj2
    (per_type_counts_add_up elements (λ s, Permutation_refl (elements s))
       predicted experimental))).
Defined.

End ComparatorRuns.

(** * The per-type table: [by_type_rows] *)

Section Sorting.
Import Compare.
Context {A : Type} (key : A → nat).

Lemma insert_desc_perm x xs : insert_desc key x xs ≡ₚ x :: xs.
Proof.
  induction xs as [|y xs IH]; simpl; [done|].
  destruct (key x <? key y); [|done].
  rewrite IH. apply Permutation_swap.
Qed.

Lemma sorted_desc_perm xs : sorted_desc key xs ≡ₚ xs.
Proof.
  induction xs as [|x xs IH]; simpl; [done|].
  fold (sorted_desc key xs). by rewrite insert_desc_perm, IH.
Qed.

Lemma insert_desc_sorted x xs :
  Sorted (λ a b, key b ≤ key a) xs →
  Sorted (λ a b, key b ≤ key a) (insert_desc key x xs).
Proof.
  induction 1 as [|y xs Hs IH Hhd]; simpl.
  - repeat constructor.
  - destruct (Nat.ltb_spec (key x) (key y)) as [Hlt|Hge].
    + constructor; [done|].
      destruct Hhd as [|z xs Hz]; simpl.
      * constructor. lia.
      * destruct (key x <? key z); constructor; lia.
    + constructor; [by constructor|]. by constructor.
Qed.

Lemma sorted_desc_sorted xs : Sorted (λ a b, key b ≤ key a) (sorted_desc key xs).
Proof.
  induction xs as [|x xs IH]; simpl; [constructor|].
  by apply insert_desc_sorted.
Qed.

(** Items of one key keep their order: the sort is stable. *)
Lemma insert_desc_filter n x xs :
  List.filter (λ a, key a =? n) (insert_desc key x xs)
  = List.filter (λ a, key a =? n) (x :: xs).
Proof.
  induction xs as [|y xs IH]; [done|].
  cbn [insert_desc]. destruct (Nat.ltb_spec (key x) (key y)) as [Hlt|Hge]; [|done].
  cbn [List.filter] in *. rewrite IH.
  destruct (Nat.eqb_spec (key y) n), (Nat.eqb_spec (key x) n); try done. lia.
Qed.

Lemma sorted_desc_filter n xs :
  List.filter (λ a, key a =? n) (sorted_desc key xs)
  = List.filter (λ a, key a =? n) xs.
Proof.
  induction xs as [|x xs IH]; [done|].
  cbn [sorted_desc foldr]. fold (sorted_desc key xs).
  rewrite insert_desc_filter. cbn [List.filter]. by rewrite IH.
Qed.
End Sorting.

Section TableFacts.
Import Compare.

(** C7, as the code has it.  The per-type rows are the items of [by_type]
    sorted by descending predicted count; rows of equal predicted count keep
    the order in which [by_type] lists them, and no tie-break by type name is
    applied. *)
Theorem by_type_rows_order (by_type : list (string * ByType.t)) :
  let rows := by_type_rows by_type in
  rows ≡ₚ by_type ∧
  Sorted (λ a b, ByType.predicted b.2 ≤ ByType.predicted a.2) rows ∧
  ∀ n, List.filter (λ x, ByType.predicted x.2 =? n) rows
       = List.filter (λ x, ByType.predicted x.2 =? n) by_type.
Proof.
  intros rows. split_and!.
  - apply sorted_desc_perm.
  - apply (sorted_desc_sorted (λ x : string * ByType.t, ByType.predicted x.2)).
  - intros n. apply (sorted_desc_filter (λ x : string * ByType.t, ByType.predicted x.2)).
Qed.

(** C7, as stated, fails: with one predicted interaction of each type the
    row of ["vdw"] is written before the row of ["hbond"]. *)
Lemma by_type_rows_ties_not_by_name :
  by_type_rows (by_type (compare_interactions elements Scenario.tied_prediction []))
  = [("vdw", Scenario.one_missed); ("hbond", Scenario.one_missed)] ∧
  ¬ Sorted row_precedes
      (by_type_rows
         (by_type (compare_interactions elements Scenario.tied_prediction []))).
Proof.
  assert (Hrows :
    by_type_rows (by_type (compare_interactions elements Scenario.tied_prediction []))
    = [("vdw", Scenario.one_missed); ("hbond", Scenario.one_missed)])
    by (vm_compute; reflexivity).
  split; [exact Hrows|]. rewrite Hrows. intros Hs.
  inversion Hs as [|? ? _ Hhd]; subst. inversion Hhd as [|? ? Hp]; subst.
  destruct Hp as [Hlt|[_ Hle]].
  - simpl in Hlt. lia.
  - vm_compute in Hle. discriminate.
Qed.

End TableFacts.

(** * The two parsers: concatenation, agreement, canonical tuples *)

Lemma sorted2_comm a b : sorted2 a b = sorted2 b a.
Proof.
  unfold sorted2, String.ltb. rewrite (String.compare_antisym b a).
  destruct (String.compare a b) eqn:E; simpl; try done.
  apply String.compare_eq_iff in E. by subst.
Qed.

Lemma sorted2_sorted a b : String.ltb (sorted2 a b).2 (sorted2 a b).1 = false.
Proof.
  unfold sorted2, String.ltb. rewrite (String.compare_antisym b a).
  destruct (String.compare a b) eqn:E; simpl.
  - by rewrite String.compare_antisym, E.
  - by rewrite String.compare_antisym, E.
  - by rewrite E.
Qed.

Section LoopFrames.
Context {E X A : Type}.
Implicit Types (body : list A → X → result E (list A)).

Lemma for_each_appends body xs :
  appends body →
  ∀ acc, for_each xs body acc = (new ← for_each xs body []; Return (acc ++ new)).
Proof.
  intros Hb. induction xs as [|x xs IH]; intros acc; simpl.
  - by rewrite app_nil_r.
  - rewrite (Hb acc x). destruct (body [] x) as [new|e]; simpl; [|done].
    rewrite (IH (acc ++ new)), (IH new).
    destruct (for_each xs body []) as [r|e]; simpl; [|done].
    by rewrite app_assoc.
Qed.
End LoopFrames.

Section PairFrames.
Context {E X A B : Type}.
Implicit Types (body : list A * list B → X → result E (list A * list B)).

Lemma for_each_appends2 body xs :
  appends2 body →
  ∀ acc, for_each xs body acc
         = (new ← for_each xs body ([], []); Return (pair_app acc new)).
Proof.
  intros Hb. induction xs as [|x xs IH]; intros [a b]; simpl.
  - unfold pair_app. simpl. by rewrite !app_nil_r.
  - rewrite (Hb (a, b) x). destruct (body ([], []) x) as [new|e]; simpl; [|done].
    rewrite (IH (pair_app (a, b) new)), (IH new).
    destruct (for_each xs body ([], [])) as [r|e]; simpl; [|done].
    unfold pair_app. simpl. by rewrite !app_assoc.
Qed.
End PairFrames.

Section Parsers.
Variable float_of_str : string → option float.

Lemma extract_contact_appends c1 n1 r1 a1 :
  appends (Analyze.extract_contact float_of_str c1 n1 r1 a1).
Proof.
  intros acc contact. unfold Analyze.extract_contact.
  destruct contact as [| | | | | |c]; simpl; try by rewrite app_nil_r.
  destruct (strip_split _) as [parts|e]; simpl; [|done].
  destruct (length parts <? 4); simpl; [by rewrite app_nil_r|].
  destruct (firstn 4 parts) as [|? [|? [|? [|? [|]]]]]; try done.
  destruct (if truthy _ then _ else _) as [d|e]; simpl; done.
Qed.

Lemma extract_entry_appends : appends (Analyze.extract_entry float_of_str).
Proof.
  intros acc [key value]. unfold Analyze.extract_entry.
  destruct value as [| | | | | |ad]; simpl; try by rewrite app_nil_r.
  destruct (length _ <? 4); simpl; [by rewrite app_nil_r|].
  destruct (firstn 4 _) as [|? [|? [|? [|? [|]]]]]; try done.
  destruct (dict_get "contact" ad) as [contacts|]; simpl; [|by rewrite app_nil_r].
  apply for_each_appends, extract_contact_appends.
Qed.

Lemma parse_contact_appends res1 : appends2 (Compare.parse_contact res1).
Proof.
  intros [tups tags] contact. unfold Compare.parse_contact, pair_app.
  destruct contact as [| | | | | |c]; simpl; try by rewrite !app_nil_r.
  destruct (strip_split _) as [parts|e]; simpl; [|done].
  destruct (length parts <? 4); simpl; [by rewrite !app_nil_r|].
  destruct (firstn 4 parts) as [|? [|? [|? [|? [|]]]]]; try done.
  destruct (hashable _); simpl; done.
Qed.

Lemma parse_entry_appends : appends2 Compare.parse_entry.
Proof.
  intros [tups tags] [key value]. unfold Compare.parse_entry.
  destruct value as [| | | | | |ad]; simpl; try by (unfold pair_app; simpl; rewrite !app_nil_r).
  destruct (dict_get "contact" ad) as [contacts|]; simpl;
    [|by (unfold pair_app; simpl; rewrite !app_nil_r)].
  destruct (length _ <? 4); simpl; [by (unfold pair_app; simpl; rewrite !app_nil_r)|].
  destruct (firstn 4 _) as [|? [|? [|? [|? [|]]]]]; try done.
  apply for_each_appends2, parse_contact_appends.
Qed.

(** X1.  Both parsers read a contact map entry by entry, with no state but
    the lists they build: the parse of a map whose entries are those of one
    map followed by those of another is the parse of the first followed by
    the parse of the second (for [parse_arpeggio_interactions], in each of
    its two lists), and it raises what the first raises, else what the
    second raises. *)
Theorem parsers_distribute_over_concatenation items1 items2 :
  Analyze.extract_interactions float_of_str (JDict (items1 ++ items2))
  = (records1 ← Analyze.extract_interactions float_of_str (JDict items1);
     records2 ← Analyze.extract_interactions float_of_str (JDict items2);
     Return (records1 ++ records2)) ∧
  Compare.parse_arpeggio_interactions (JDict (items1 ++ items2))
  = (parsed1 ← Compare.parse_arpeggio_interactions (JDict items1);
     parsed2 ← Compare.parse_arpeggio_interactions (JDict items2);
     Return (pair_app parsed1 parsed2)).
Proof.
  simpl. split.
  - rewrite for_each_app.
    destruct (for_each items1 _ []) as [r1|e]; simpl; [|done].
    apply for_each_appends, extract_entry_appends.
  - rewrite for_each_app.
    destruct (for_each items1 _ ([], [])) as [r1|e]; simpl; [|done].
    apply for_each_appends2, parse_entry_appends.
Qed.

(** *** The two parsers agree *)

Lemma contact_agrees c1 n1 r1 a1 contact new :
  Analyze.extract_contact float_of_str c1 n1 r1 a1 [] contact = Return new →
  Forall (λ inter, hashable (Analyze.type inter) = true) new →
  Compare.parse_contact (residue_id c1 r1 n1) ([], []) contact
  = Return (tuples new).
Proof.
  unfold Analyze.extract_contact, Compare.parse_contact.
  destruct contact as [| | | | | |c]; simpl; try (by intros [= <-]).
  destruct (strip_split _) as [parts|e]; simpl; [|done].
  destruct (length parts <? 4); simpl; [by intros [= <-]|].
  destruct (firstn 4 parts) as [|? [|? [|? [|? [|]]]]]; try done.
  destruct (if truthy _ then _ else _) as [d|e]; simpl; [|done].
  intros [= <-] Hh. apply Forall_inv in Hh. simpl in Hh. by rewrite Hh.
Qed.

Lemma contacts_agree c1 n1 r1 a1 contacts new :
  for_each contacts (Analyze.extract_contact float_of_str c1 n1 r1 a1) [] = Return new →
  Forall (λ inter, hashable (Analyze.type inter) = true) new →
  for_each contacts (Compare.parse_contact (residue_id c1 r1 n1)) ([], [])
  = Return (tuples new).
Proof.
  revert new. induction contacts as [|c cs IH]; intros new; cbn [for_each].
  - by intros [= <-].
  - destruct (Analyze.extract_contact _ _ _ _ _ [] c) as [new1|e] eqn:E1;
      cbn [mbind result_bind bind]; [|done].
    rewrite (for_each_appends _ cs (extract_contact_appends c1 n1 r1 a1)).
    destruct (for_each cs _ []) as [new2|e] eqn:E2;
      cbn [mbind result_bind bind]; [|done].
    intros [= <-] [H1 H2]%Forall_app.
    rewrite (contact_agrees _ _ _ _ _ _ E1 H1). cbn [mbind result_bind bind].
    rewrite (for_each_appends2 _ cs (parse_contact_appends _)).
    rewrite (IH _ eq_refl H2). cbn [mbind result_bind bind].
    unfold tuples, pair_app. simpl. by rewrite !map_app.
Qed.

Lemma entry_agrees item new :
  Analyze.extract_entry float_of_str [] item = Return new →
  Forall (λ inter, hashable (Analyze.type inter) = true) new →
  Compare.parse_entry ([], []) item = Return (tuples new).
Proof.
  destruct item as [key value].
  unfold Analyze.extract_entry, Compare.parse_entry.
  destruct value as [| | | | | |ad]; simpl; try (by intros [= <-]).
  destruct (dict_get "contact" ad) as [contacts|].
  - destruct (length _ <? 4); simpl; [by intros [= <-]|].
    destruct (firstn 4 _) as [|? [|? [|? [|? [|]]]]]; try done.
    apply contacts_agree.
  - destruct (length _ <? 4); simpl; [by intros [= <-]|].
    destruct (firstn 4 _) as [|? [|? [|? [|? [|]]]]]; try done.
    by intros [= <-].
Qed.

(** X2.  The parsers of the two scripts agree.  Whenever
    [extract_interactions] (04) returns records whose type tags are all
    hashable, [parse_arpeggio_interactions] (06) returns on the same data,
    and returns, record for record and in the same order, the sorted pair of
    residue identifiers [analyze_interactions] would use as its key together
    with the type tag, and the list of the type tags. *)
Theorem parsers_agree data records :
  Analyze.extract_interactions float_of_str data = Return records →
  Forall (λ inter, hashable (Analyze.type inter) = true) records →
  Compare.parse_arpeggio_interactions data = Return (tuples records).
Proof.
  destruct data as [| | | | | |items]; try done.
  unfold Analyze.extract_interactions, Compare.parse_arpeggio_interactions.
  revert records. induction items as [|item items IH]; intros records;
    cbn [for_each].
  - by intros [= <-].
  - destruct (Analyze.extract_entry _ [] item) as [new1|e] eqn:E1;
      cbn [mbind result_bind bind]; [|done].
    rewrite (for_each_appends _ items extract_entry_appends).
    destruct (for_each items _ []) as [new2|e] eqn:E2;
      cbn [mbind result_bind bind]; [|done].
    intros [= <-] [H1 H2]%Forall_app.
    rewrite (entry_agrees _ _ E1 H1). cbn [mbind result_bind bind].
    rewrite (for_each_appends2 _ items parse_entry_appends).
    rewrite (IH _ eq_refl H2). cbn [mbind result_bind bind].
    unfold tuples, pair_app. simpl. by rewrite !map_app.
Qed.

End Parsers.

Section ParserRuns.
Import Scenario Cases.

Lemma parsers_agree_witness :
  Compare.parse_arpeggio_interactions contact_map
  = Return (tuples [contact_record]).
Proof.
  apply (parsers_agree no_float contact_map [contact_record]).
  - reflexivity.
  - repeat constructor.
Defined.

End ParserRuns.

(** *** Invariants of the parsed tuples *)

Section LoopInvariant.
Context {E S X : Type}.

Lemma for_each_invariant (P : S → Prop) (body : S → X → result E S) xs :
  (∀ acc x acc', P acc → body acc x = Return acc' → P acc') →
  ∀ acc acc', P acc → for_each xs body acc = Return acc' → P acc'.
Proof.
  intros Hstep. induction xs as [|x xs IH]; intros acc acc' Hacc; simpl.
  - by intros [= <-].
  - destruct (body acc x) as [acc1|e] eqn:E1; simpl; [|done].
    apply IH. by apply (Hstep acc x).
Qed.
End LoopInvariant.

Lemma parse_contact_well_parsed res1 acc contact acc' :
  well_parsed acc → Compare.parse_contact res1 acc contact = Return acc' →
  well_parsed acc'.
Proof.
  destruct acc as [tups tags]. intros [Ht Hf]. simpl in *.
  unfold Compare.parse_contact.
  destruct contact as [| | | | | |c]; simpl; try (by intros [= <-]).
  destruct (strip_split _) as [parts|e]; simpl; [|done].
  destruct (length parts <? 4); simpl; [by intros [= <-]|].
  destruct (firstn 4 parts) as [|? [|? [|? [|? [|]]]]]; try done.
  destruct (hashable _) eqn:Hh; simpl; [|done].
  intros [= <-]. split; simpl.
  - by rewrite fmap_app, Ht.
  - apply Forall_app. split; [done|].
    constructor; [|done]. split; [apply sorted2_sorted | done].
Qed.

Lemma parse_entry_well_parsed acc item acc' :
  well_parsed acc → Compare.parse_entry acc item = Return acc' → well_parsed acc'.
Proof.
  destruct item as [key value]. intros Hacc. unfold Compare.parse_entry.
  destruct value as [| | | | | |ad]; simpl; try (by intros [= <-]).
  destruct (dict_get "contact" ad) as [contacts|]; [|by intros [= <-]].
  destruct (length _ <? 4); simpl; [by intros [= <-]|].
  destruct (firstn 4 _) as [|? [|? [|? [|? [|]]]]]; try done.
  apply for_each_invariant; [|done].
  intros a x a'. apply parse_contact_well_parsed.
Qed.

(** X3.  Whatever [parse_arpeggio_interactions] returns, its second list is
    the list of the third components of its first list, so the two have the
    same length; in every tuple the two residue identifiers are in sorted
    order, and the type tag is hashable. *)
Theorem parsed_tuples_are_canonical data interactions interaction_types :
  Compare.parse_arpeggio_interactions data
  = Return (interactions, interaction_types) →
  interaction_types = interactions.*2 ∧
  length interaction_types = length interactions ∧
  Forall (λ i : Compare.interaction json,
            String.ltb i.1.2 i.1.1 = false ∧ hashable i.2 = true) interactions.
Proof.
  destruct data as [| | | | | |items]; try done. simpl. intros Hp.
  assert (Hw : well_parsed (interactions, interaction_types)).
  { apply (for_each_invariant well_parsed Compare.parse_entry items
             parse_entry_well_parsed ([], [])); [|done].
    split; [done | constructor]. }
  destruct Hw as [Ht Hf]. simpl in *. split_and!; try done.
  by rewrite Ht, length_fmap.
Qed.

Lemma firstn_4_of_parts (parts : list string) :
  4 ≤ length parts → ∃ a b c d, firstn 4 parts = [a; b; c; d].
Proof.
  destruct parts as [|a [|b [|c [|d ?]]]]; simpl; try lia. by eexists _, _, _, _.
Qed.

(** X4.  The direction in which a contact is reported does not matter to
    [parse_arpeggio_interactions]: an entry of atom [path1] with a contact to
    [path2] and an entry of atom [path2] with a contact to [path1] of the
    same type add the same tuple (or are both skipped, when one of the two
    paths has fewer than four segments). *)
Theorem contact_direction_is_canonical acc path1 path2 c c' :
  dict_get "bgn_atom" c = Some (JStr path2) →
  dict_get "bgn_atom" c' = Some (JStr path1) →
  dict_get "type" c = dict_get "type" c' →
  Compare.parse_entry acc (path1, JDict [("contact", JDict c)])
  = Compare.parse_entry acc (path2, JDict [("contact", JDict c')]).
Proof.
  intros Hc Hc' Ht.
  assert (Hskip : ∀ key key' d,
            malformed_path key → dict_get "bgn_atom" d = Some (JStr key) →
            Compare.parse_entry acc (key', JDict [("contact", JDict d)]) = Return acc).
  { intros key key' d Hk Hd.
    apply (parse_entry_single_skipped acc key' _ (JDict d)); try done.
    simpl. by rewrite Hd. }
  destruct (Nat.lt_ge_cases (length (path_parts path1)) 4) as [H1|H1].
  { rewrite (parse_entry_malformed_key acc path1 _ H1).
    symmetry. by apply (Hskip path1). }
  destruct (Nat.lt_ge_cases (length (path_parts path2)) 4) as [H2|H2].
  { rewrite (parse_entry_malformed_key acc path2 _ H2). by apply (Hskip path2). }
  destruct (firstn_4_of_parts _ H1) as (a1 & b1 & c1 & d1 & F1).
  destruct (firstn_4_of_parts _ H2) as (a2 & b2 & c2 & d2 & F2).
  destruct acc as [tups tags].
  unfold Compare.parse_entry, Compare.parse_contact. simpl.
  rewrite Hc, Hc', Ht. simpl.
  apply Nat.ltb_ge in H1, H2. rewrite H1, H2, F1, F2. simpl.
  by rewrite sorted2_comm.
Qed.

(** X5.  A contact whose ['bgn_atom'] is present and is not a string is not
    skipped: under a key of four segments it makes both parsers raise
    [AttributeError] (from [.strip]), whatever the entries before it gave
    and whatever follows it. *)
Theorem non_string_partner_aborts float_of_str items1 key atom_data c v items2
    records parsed :
  Analyze.extract_interactions float_of_str (JDict items1) = Return records →
  Compare.parse_arpeggio_interactions (JDict items1) = Return parsed →
  ¬ malformed_path key →
  dict_get "contact" atom_data = Some (JDict c) →
  dict_get "bgn_atom" c = Some v →
  (∀ path, v ≠ JStr path) →
  Analyze.extract_interactions float_of_str
    (JDict (items1 ++ (key, JDict atom_data) :: items2))
  = Raise AttributeError ∧
  Compare.parse_arpeggio_interactions
    (JDict (items1 ++ (key, JDict atom_data) :: items2))
  = Raise AttributeError.
Proof.
  intros He Hp Hk Had Hc Hv. simpl in *.
  assert (Hlen : (length (path_parts key) <? 4) = false).
  { apply Nat.ltb_ge. unfold malformed_path in Hk. lia. }
  destruct (firstn_4_of_parts (path_parts key)) as (a1 & b1 & c1 & d1 & F1).
  { apply Nat.ltb_ge in Hlen. done. }
  assert (Hs : strip_split v = Raise AttributeError).
  { destruct v; try done. by specialize (Hv s). }
  split.
  - assert (Hbody : Analyze.extract_entry float_of_str records (key, JDict atom_data)
                    = Raise AttributeError).
    { unfold Analyze.extract_entry. rewrite Hlen, F1, Had.
      cbn [for_each]. unfold Analyze.extract_contact.
      rewrite Hc. simpl. by rewrite Hs. }
    rewrite for_each_app, He. cbn [mbind result_bind bind for_each].
    by rewrite Hbody.
  - assert (Hbody : Compare.parse_entry parsed (key, JDict atom_data)
                    = Raise AttributeError).
    { unfold Compare.parse_entry. rewrite Hlen, F1, Had.
      cbn [for_each]. unfold Compare.parse_contact. destruct parsed as [tups tags].
      rewrite Hc. simpl. by rewrite Hs. }
    rewrite for_each_app, Hp. cbn [mbind result_bind bind for_each].
    by rewrite Hbody.
Qed.

Section CanonicalRuns.
Import Scenario Cases.

Lemma parsed_tuples_are_canonical_witness :
  let interactions : list (Compare.interaction json) :=
    [("A:ALA10", "B:GLY20", JStr "hbond")] in
  let interaction_types := [JStr "hbond"] in
  interaction_types = interactions.*2 ∧
  length interaction_types = length interactions ∧
  Forall (λ i : Compare.interaction json,
            String.ltb i.1.2 i.1.1 = false ∧ hashable i.2 = true) interactions.
Proof.
  exact (parsed_tuples_are_canonical contact_map
           [("A:ALA10", "B:GLY20", JStr "hbond")] [JStr "hbond"] eq_refl).
Defined.

Lemma contact_direction_is_canonical_witness :
  Compare.parse_entry ([], [])
    ("/A/10/ALA/CA", JDict [("contact", JDict forward_contact)])
  = Compare.parse_entry ([], [])
      ("/B/20/GLY/CB", JDict [("contact", JDict reverse_contact)]).
Proof.
  exact (contact_direction_is_canonical ([], []) "/A/10/ALA/CA" "/B/20/GLY/CB"
           forward_contact reverse_contact eq_refl eq_refl eq_refl).
Defined.

Lemma non_string_partner_aborts_witness :
  Analyze.extract_interactions no_float
    (JDict ([] ++ ("/A/10/ALA/CA", JDict numbered_partner) :: []))
  = Raise AttributeError ∧
  Compare.parse_arpeggio_interactions
    (JDict ([] ++ ("/A/10/ALA/CA", JDict numbered_partner) :: []))
  = Raise AttributeError.
Proof.
  apply (non_string_partner_aborts no_float [] "/A/10/ALA/CA" numbered_partner
           [("bgn_atom", JInt 20); ("type", JStr "hbond")] (JInt 20) []
           [] ([], [])).
  - reflexivity.
  - reflexivity.
  - unfold malformed_path. vm_compute. lia.
  - reflexivity.
  - reflexivity.
  - intros path. discriminate.
Defined.

End CanonicalRuns.

(** * The analysis: residue counts, residue pairs, direction, type tags *)


Section Analysis.
Variable py_sum : list float → float.

Lemma analyze_interactions_unfold interactions :
  Analyze.analyze_interactions py_sum interactions
  = (counted ← Analyze.count_types interactions;
     Return {| Analyze.total_interactions := length interactions;
               Analyze.type_counts := counted;
               Analyze.residue_pair_counts := group_types interactions;
               Analyze.residue_counts := count_ends interactions;
               Analyze.unique_residue_pairs := size (group_types interactions);
               Analyze.distance_stats :=
                 Analyze.stats_of py_sum (Analyze.positive_distances interactions) |}).
Proof. reflexivity. Qed.

(** The fields of the dictionary, when the analysis returns. *)
Lemma analyze_interactions_fields interactions a :
  Analyze.analyze_interactions py_sum interactions = Return a →
  Analyze.total_interactions a = length interactions ∧
  Analyze.residue_pair_counts a = group_types interactions ∧
  Analyze.residue_counts a = count_ends interactions ∧
  Analyze.unique_residue_pairs a = size (group_types interactions) ∧
  Analyze.distance_stats a
  = Analyze.stats_of py_sum (Analyze.positive_distances interactions).
Proof.
  unfold Analyze.analyze_interactions.
  destruct (Analyze.count_types interactions) as [ts|e]; simpl; [|done].
  intros [= <-]. done.
Qed.

Lemma count_end_lookup m r r' :
  default 0 (count_end m r !! r')
  = default 0 (m !! r') + (if decide (r = r') then 1 else 0).
Proof.
  unfold count_end. rewrite lookup_insert.
  destruct (decide (r = r')) as [->|]; simpl; lia.
Qed.

Lemma count_end_positive m r :
  map_Forall (λ _ n, 0 < n) m → map_Forall (λ _ n, 0 < n) (count_end m r).
Proof.
  intros Hm. unfold count_end. apply map_Forall_insert_2; [lia | done].
Qed.

Lemma total_count_end m r : total_count (count_end m r) = total_count m + 1.
Proof.
  unfold total_count, count_end.
  destruct (m !! r) as [n|] eqn:E; simpl.
  - rewrite <- insert_delete_eq.
    rewrite map_fold_insert_L; [| intros; lia | apply lookup_delete_eq].
    rewrite (map_fold_delete_L _ _ r n m); [lia | intros; lia | done].
  - rewrite map_fold_insert_L; [lia | intros; lia | done].
Qed.

Lemma count_ends_snoc l i :
  count_ends (l ++ [i])
  = count_end (count_end (count_ends l) (first_residue i)) (second_residue i).
Proof. unfold count_ends. by rewrite foldl_snoc. Qed.

Lemma residue_ends_snoc l i :
  residue_ends (l ++ [i]) = residue_ends l ++ [first_residue i; second_residue i].
Proof. unfold residue_ends. by rewrite flat_map_app. Qed.

Lemma count_ends_lookup l r :
  default 0 (count_ends l !! r) = length (filter (λ x, x = r) (residue_ends l)).
Proof.
  induction l as [|i l IH] using rev_ind; [done|].
  rewrite count_ends_snoc, residue_ends_snoc, filter_app, length_app.
  rewrite !count_end_lookup, IH.
  rewrite !filter_cons, filter_nil.
  destruct (decide (first_residue i = r)), (decide (second_residue i = r));
    simpl; lia.
Qed.

Lemma count_ends_positive l : map_Forall (λ _ n, 0 < n) (count_ends l).
Proof.
  induction l as [|i l IH] using rev_ind; [apply map_Forall_empty|].
  rewrite count_ends_snoc. by do 2 apply count_end_positive.
Qed.

Lemma total_count_ends l : total_count (count_ends l) = 2 * length l.
Proof.
  induction l as [|i l IH] using rev_ind; [done|].
  rewrite count_ends_snoc, !total_count_end, IH, length_app. simpl. lia.
Qed.

(** X6.  In the dictionary [analyze_interactions] returns, the count of a
    residue is the number of interaction ends at that residue (an
    interaction within one residue counts twice); the residues counted are
    exactly those at some end; and the counts add up to twice
    ['total_interactions']. *)
Theorem residue_counts_count_interaction_ends interactions a :
  Analyze.analyze_interactions py_sum interactions = Return a →
  (∀ r, default 0 (Analyze.residue_counts a !! r)
        = length (filter (λ x, x = r) (residue_ends interactions))) ∧
  (∀ r, r ∈ dom (Analyze.residue_counts a) ↔ r ∈ residue_ends interactions) ∧
  total_count (Analyze.residue_counts a) = 2 * Analyze.total_interactions a.
Proof.
  intros (Ht & _ & Hc & _)%analyze_interactions_fields. rewrite Hc, Ht.
  split_and!.
  - apply count_ends_lookup.
  - intros r. rewrite elem_of_dom. split.
    + intros [n Hn].
      pose proof (count_ends_positive interactions r n Hn) as Hpos. simpl in Hpos.
      pose proof (count_ends_lookup interactions r) as Hl. rewrite Hn in Hl.
      simpl in Hl.
      destruct (filter (λ x, x = r) (residue_ends interactions)) as [|x xs] eqn:Ef;
        [simpl in Hl; lia|].
      assert (Hx : x ∈ filter (λ x, x = r) (residue_ends interactions))
        by (rewrite Ef; left).
      apply list_elem_of_filter in Hx as [-> Hx]. done.
    + intros Hr.
      pose proof (count_ends_lookup interactions r) as Hl.
      destruct (count_ends interactions !! r) as [n|]; [by eexists|].
      simpl in Hl. symmetry in Hl. apply length_zero_iff_nil in Hl.
      assert (Hx : r ∈ filter (λ x, x = r) (residue_ends interactions))
        by (by apply list_elem_of_filter).
      rewrite Hl in Hx. by apply elem_of_nil in Hx.
  - apply total_count_ends.
Qed.





Lemma residue_pair_swap inter :
  Analyze.residue_pair (swap_partners inter) = Analyze.residue_pair inter.
Proof. unfold Analyze.residue_pair. simpl. apply sorted2_comm. Qed.

(** *** The direction of a contact *)

Lemma count_end_comm m r r' :
  count_end (count_end m r) r' = count_end (count_end m r') r.
Proof.
  apply map_eq. intros k. unfold count_end.
  destruct (decide (r = r')) as [->|Hne]; [done|].
  rewrite !lookup_insert.
  repeat case_decide; simplify_eq; simpl; rewrite ?lookup_insert_eq, ?lookup_insert_ne by done; done.
Qed.

Lemma foldl_same_contact {M} (step : M → Analyze.interaction → M) l l' :
  (∀ m x, step m (swap_partners x) = step m x) →
  Forall2 same_contact l l' → ∀ m, foldl step m l' = foldl step m l.
Proof.
  intros Hstep. induction 1 as [|x y l l' [->| ->] _ IH]; intros m; simpl; [done| |].
  - apply IH.
  - rewrite Hstep. apply IH.
Qed.

Lemma for_each_same_contact {S} (body : S → Analyze.interaction → result py_error S) l l' :
  (∀ acc x, body acc (swap_partners x) = body acc x) →
  Forall2 same_contact l l' → ∀ acc, for_each l' body acc = for_each l body acc.
Proof.
  intros Hstep. induction 1 as [|x y l l' [->| ->] _ IH]; intros acc; simpl; [done| |].
  - destruct (body acc x); simpl; [apply IH | done].
  - rewrite Hstep. destruct (body acc x); simpl; [apply IH | done].
Qed.

(** X8.  [analyze_interactions] does not depend on the side from which each
    contact is read: exchanging the two partners in any of the interactions
    gives an equal dictionary (equal as Python compares dictionaries, that
    is, regardless of the order in which keys were inserted). *)
Theorem analysis_ignores_contact_direction interactions interactions' :
  Forall2 same_contact interactions interactions' →
  Analyze.analyze_interactions py_sum interactions'
  = Analyze.analyze_interactions py_sum interactions.
Proof.
  intros Hsame. rewrite !analyze_interactions_unfold. unfold Analyze.count_types.
  rewrite (for_each_same_contact Analyze.count_type _ _ (λ _ _, eq_refl) Hsame).
  assert (Hlen : length interactions' = length interactions)
    by (symmetry; by eapply Forall2_length).
  assert (Hd : Analyze.positive_distances interactions'
               = Analyze.positive_distances interactions).
  { unfold Analyze.positive_distances. f_equal.
    clear Hlen. induction Hsame as [|x y l l' [->| ->] _ IH]; simpl; by f_equal. }
  assert (Hg : group_types interactions' = group_types interactions).
  { apply foldl_same_contact; [|done]. intros m x.
    by rewrite residue_pair_swap. }
  assert (Hc : count_ends interactions' = count_ends interactions).
  { apply foldl_same_contact; [|done]. intros m x.
    unfold first_residue, second_residue. simpl. apply count_end_comm. }
  by rewrite Hlen, Hd, Hg, Hc.
Qed.

(** *** Unhashable type tags *)

Lemma count_types_raises interactions counted :
  Exists (λ inter, hashable (Analyze.type inter) = false) interactions →
  for_each interactions Analyze.count_type counted = Raise TypeError.
Proof.
  intros Hex. revert counted.
  induction Hex as [i l Hi|i l _ IH]; intros counted; cbn [for_each].
  - assert (Hstep : Analyze.count_type counted i = Raise TypeError)
      by (unfold Analyze.count_type; by rewrite Hi).
    by rewrite Hstep.
  - destruct (Analyze.count_type counted i) as [counted'|e] eqn:E;
      cbn [mbind result_bind bind].
    + apply IH.
    + unfold Analyze.count_type in E. by destruct (hashable _).
Qed.

(** X9.  [analyze_interactions] returns on every list whose type tags are
    hashable, with ['total_interactions'] the length of the list and the
    tags counted once per interaction; with a type tag that is a list or an
    object, the [Counter] raises [TypeError]. *)
Theorem analysis_needs_hashable_types interactions :
  (Forall (λ inter, hashable (Analyze.type inter) = true) interactions →
   ∃ a, Analyze.analyze_interactions py_sum interactions = Return a ∧
        Analyze.total_interactions a = length interactions ∧
        Analyze.type_counts a = List.map Analyze.type interactions) ∧
  (Exists (λ inter, hashable (Analyze.type inter) = false) interactions →
   Analyze.analyze_interactions py_sum interactions = Raise TypeError).
Proof.
  split.
  - intros Hh. unfold Analyze.analyze_interactions, Analyze.count_types.
    rewrite (count_types_from [] _ Hh). simpl. by eexists.
  - intros Hex. unfold Analyze.analyze_interactions, Analyze.count_types.
    by rewrite (count_types_raises _ [] Hex).
Qed.

End Analysis.

Section AnalysisRuns.
Import Scenario Cases.

Lemma residue_counts_count_interaction_ends_witness :
  (∀ r, default 0 (Analyze.residue_counts contact_analysis !! r)
        = length (filter (λ x, x = r) (residue_ends [contact_record]))) ∧
  (∀ r, r ∈ dom (Analyze.residue_counts contact_analysis)
        ↔ r ∈ residue_ends [contact_record]) ∧
  total_count (Analyze.residue_counts contact_analysis)
  = 2 * Analyze.total_interactions contact_analysis.
Proof.
  exact (residue_counts_count_interaction_ends sum_left [contact_record]
           contact_analysis eq_refl).
Defined.


Lemma analysis_ignores_contact_direction_witness :
  Analyze.analyze_interactions sum_left [swap_partners contact_record]
  = Analyze.analyze_interactions sum_left [contact_record].
Proof.
  apply (analysis_ignores_contact_direction sum_left
           [contact_record] [swap_partners contact_record]).
  constructor; [right; reflexivity | constructor].
Defined.

Lemma analysis_needs_hashable_types_witness :
  (∃ a, Analyze.analyze_interactions sum_left [contact_record] = Return a ∧
        Analyze.total_interactions a = length [contact_record] ∧
        Analyze.type_counts a = List.map Analyze.type [contact_record]) ∧
  Analyze.analyze_interactions sum_left [contact_record; record_with_list_tag]
  = Raise TypeError.
Proof.
  split.
  - apply (proj1 (analysis_needs_hashable_types sum_left [contact_record])).
    repeat constructor.
  - apply (proj2 (analysis_needs_hashable_types sum_left
                    [contact_record; record_with_list_tag])).
    right. left. reflexivity.
Defined.

End AnalysisRuns.

(** * The analysis: the extremes of the distances *)

Lemma flt_irrefl x : flt x x = false.
Proof.
  unfold flt, SFltb. destruct x as [s|s| |s m e]; simpl; try done.
  - by destruct s.
  - destruct s; rewrite Z.compare_refl, Pos.compare_cont_refl; done.
Qed.

Lemma flt_trans x y z : flt x y = true → flt y z = true → flt x z = true.
Proof.
  unfold flt, SFltb.
  destruct x as [sx|sx| |sx mx ex], y as [sy|sy| |sy my ey], z as [sz|sz| |sz mz ez];
    simpl; try done;
    try (destruct sx; try done); try (destruct sy; try done);
    try (destruct sz; try done).
  all: change (Pos.compare_cont Eq) with Pos.compare.
  all: destruct (Z.compare_spec ex ey), (Z.compare_spec ey ez),
         (Z.compare_spec ex ez); try done; try lia; subst.
  all: destruct (Pos.compare_spec mx my), (Pos.compare_spec my mz),
         (Pos.compare_spec mx mz); simpl; try done; try lia.
Qed.

Lemma py_min_not_below ds cur x :
  flt x cur = false → flt x (Analyze.py_min cur ds) = false.
Proof.
  unfold Analyze.py_min. revert cur. induction ds as [|item ds IH]; intros cur Hx; simpl; [done|].
  apply IH. destruct (flt item cur) eqn:E; [|done].
  destruct (flt x item) eqn:E'; [|done].
  by rewrite (flt_trans x item cur E' E) in Hx.
Qed.

Lemma py_min_lower_bound d ds x :
  x ∈ d :: ds → flt x (Analyze.py_min d ds) = false.
Proof.
  revert d. induction ds as [|item ds IH]; intros d Hx.
  - apply list_elem_of_singleton in Hx as ->. apply flt_irrefl.
  - apply elem_of_cons in Hx as [->|Hx].
    + apply py_min_not_below, flt_irrefl.
    + change (Analyze.py_min d (item :: ds))
        with (Analyze.py_min (if flt item d then item else d) ds).
      apply elem_of_cons in Hx as [->|Hx].
      * apply py_min_not_below. destruct (flt item d) eqn:E; [apply flt_irrefl | done].
      * apply IH. by right.
Qed.

Lemma py_min_member d ds : Analyze.py_min d ds ∈ d :: ds.
Proof.
  unfold Analyze.py_min. revert d. induction ds as [|item ds IH]; intros d; simpl; [left|].
  destruct (flt item d).
  - right. apply IH.
  - specialize (IH d). apply elem_of_cons in IH as [->|IH]; [left | by do 2 right].
Qed.

Lemma py_max_not_above ds cur x :
  flt cur x = false → flt (Analyze.py_max cur ds) x = false.
Proof.
  unfold Analyze.py_max. revert cur. induction ds as [|item ds IH]; intros cur Hx; simpl; [done|].
  apply IH. destruct (flt cur item) eqn:E; [|done].
  destruct (flt item x) eqn:E'; [|done].
  by rewrite (flt_trans cur item x E E') in Hx.
Qed.

Lemma py_max_upper_bound d ds x :
  x ∈ d :: ds → flt (Analyze.py_max d ds) x = false.
Proof.
  revert d. induction ds as [|item ds IH]; intros d Hx.
  - apply list_elem_of_singleton in Hx as ->. apply flt_irrefl.
  - apply elem_of_cons in Hx as [->|Hx].
    + apply py_max_not_above, flt_irrefl.
    + change (Analyze.py_max d (item :: ds))
        with (Analyze.py_max (if flt d item then item else d) ds).
      apply elem_of_cons in Hx as [->|Hx].
      * apply py_max_not_above. destruct (flt d item) eqn:E; [apply flt_irrefl | done].
      * apply IH. by right.
Qed.

Lemma py_max_member d ds : Analyze.py_max d ds ∈ d :: ds.
Proof.
  unfold Analyze.py_max. revert d. induction ds as [|item ds IH]; intros d; simpl; [left|].
  destruct (flt d item).
  - right. apply IH.
  - specialize (IH d). apply elem_of_cons in IH as [->|IH]; [left | by do 2 right].
Qed.

Section Extremes.
Variable py_sum : list float → float.

(** X10.  When some distance is positive, ['min'] and ['max'] of
    ['distance_stats'] are floats, are distances of the input that are
    positive, and no positive distance of the input is below ['min'] or
    above ['max']. *)
Theorem distance_extremes_bound_positive_distances interactions a :
  Analyze.analyze_interactions py_sum interactions = Return a →
  Analyze.positive_distances interactions ≠ [] →
  ∃ lowest highest,
    Analyze.min (Analyze.distance_stats a) = Analyze.Float lowest ∧
    Analyze.max (Analyze.distance_stats a) = Analyze.Float highest ∧
    lowest ∈ Analyze.positive_distances interactions ∧
    highest ∈ Analyze.positive_distances interactions ∧
    flt (of_int 0) lowest = true ∧
    ∀ d, d ∈ Analyze.positive_distances interactions →
         flt d lowest = false ∧ flt highest d = false.
Proof.
  intros (_ & _ & _ & _ & Hs)%analyze_interactions_fields Hne. rewrite Hs.
  assert (Hpos : ∀ d, d ∈ Analyze.positive_distances interactions →
                      flt (of_int 0) d = true).
  { intros d Hd. unfold Analyze.positive_distances in Hd.
    apply list_elem_of_In, filter_In in Hd. tauto. }
  destruct (Analyze.positive_distances interactions) as [|d ds]; [done|].
  exists (Analyze.py_min d ds), (Analyze.py_max d ds). simpl.
  split_and!; try done.
  - apply py_min_member.
  - apply py_max_member.
  - apply Hpos, py_min_member.
  - intros x Hx. split; [by apply py_min_lower_bound | by apply py_max_upper_bound].
Qed.
End Extremes.

Section ExtremesRuns.
Import Scenario Cases.

Lemma distance_extremes_bound_positive_distances_witness :
  ∃ lowest highest,
    Analyze.min (Analyze.distance_stats contact_analysis) = Analyze.Float lowest ∧
    Analyze.max (Analyze.distance_stats contact_analysis) = Analyze.Float highest ∧
    lowest ∈ Analyze.positive_distances [contact_record] ∧
    highest ∈ Analyze.positive_distances [contact_record] ∧
    flt (of_int 0) lowest = true ∧
    ∀ d, d ∈ Analyze.positive_distances [contact_record] →
         flt d lowest = false ∧ flt highest d = false.
Proof.
  apply (distance_extremes_bound_positive_distances sum_left [contact_record]
           contact_analysis).
  - reflexivity.
  - vm_compute. discriminate.
Defined.

End ExtremesRuns.

(** * Hot spots: [identify_hot_spots] *)

(** X11.  [identify_hot_spots] returns exactly the items of [residue_counts]
    whose count is at least [min_interactions], in descending order of
    count; items of equal count keep their order in the dictionary; and a
    higher threshold selects a part of what a lower one selects. *)
Theorem identify_hot_spots_selects_and_sorts
    (residue_counts : list (string * nat)) (min_interactions : Z) :
  let hot_spots := HotSpots.identify_hot_spots residue_counts min_interactions in
  (∀ x, x ∈ hot_spots ↔ x ∈ residue_counts ∧ (min_interactions ≤ Z.of_nat x.2)%Z) ∧
  length hot_spots ≤ length residue_counts ∧
  Sorted (λ a b : string * nat, b.2 ≤ a.2) hot_spots ∧
  (∀ n, List.filter (λ x : string * nat, x.2 =? n) hot_spots
        = List.filter (λ x : string * nat, x.2 =? n)
            (List.filter (λ x, (min_interactions <=? Z.of_nat x.2)%Z) residue_counts)) ∧
  (∀ higher x, (min_interactions ≤ higher)%Z →
        x ∈ HotSpots.identify_hot_spots residue_counts higher → x ∈ hot_spots).
Proof.
  intros hot_spots.
  assert (Hin : ∀ m x, x ∈ HotSpots.identify_hot_spots residue_counts m ↔
                       x ∈ residue_counts ∧ (m ≤ Z.of_nat x.2)%Z).
  { intros m x. unfold HotSpots.identify_hot_spots.
    rewrite (sorted_desc_perm (λ x : string * nat, x.2)).
    rewrite !list_elem_of_In, filter_In, Z.leb_le. done. }
  split_and!.
  - apply Hin.
  - unfold hot_spots, HotSpots.identify_hot_spots.
    rewrite (sorted_desc_perm (λ x : string * nat, x.2)).
    apply List.filter_length_le.
  - apply (sorted_desc_sorted (λ x : string * nat, x.2)).
  - intros n. apply (sorted_desc_filter (λ x : string * nat, x.2)).
  - intros higher x Hle [Hx Hc]%Hin. apply Hin. split; [done | lia].
Qed.

Section HotSpotRuns.
Import Cases.

Lemma identify_hot_spots_selects_and_sorts_witness :
  ("A:SER11", 5) ∈ HotSpots.identify_hot_spots counts 3.
Proof.
  apply (proj2 (proj2 (proj2 (proj2
           (identify_hot_spots_selects_and_sorts counts 3)))) 4%Z ("A:SER11", 5)).
  - lia.
  - vm_compute. left.
Defined.

End HotSpotRuns.

(** * Structural superposition: the shape of the result and the atoms selected *)

Section SuperpositionMore.
Import Compare.
Variable get_structure : string → string → result exception structure.
Variable is_aa : residue → bool.
Variable superimposer_rms : list atom → list atom → result exception float.

(** X12.  [calculate_rmsd] always returns a dictionary, of one of two shapes:
    without ['error'] it has a positive ['n_atoms'] and the requested
    ['atom_type'], and BioPython was available; with ['error'] it has
    ['rmsd'] 0.0, has ['n_atoms'] 0 and has no ['atom_type']. *)
Theorem calculate_rmsd_result_shape available predicted_pdb experimental_pdb atom_type :
  ∃ r,
    (calculate_rmsd available get_structure is_aa superimposer_rms
       predicted_pdb experimental_pdb atom_type).2 = Return r ∧
    (error r = None ↔ 0 < n_atoms r) ∧
    (error r = None → Compare.atom_type r = Some atom_type ∧ available = true) ∧
    (error r ≠ None → rmsd r = fzero ∧ Compare.atom_type r = None).
Proof.
  rewrite calculate_rmsd_returns. eexists. split; [done|].
  assert (Hdeg : ∀ msg,
            (error (degraded msg) = None ↔ 0 < n_atoms (degraded msg)) ∧
            (error (degraded msg) = None →
             Compare.atom_type (degraded msg) = Some atom_type ∧ available = true) ∧
            (error (degraded msg) ≠ None →
             rmsd (degraded msg) = fzero ∧ Compare.atom_type (degraded msg) = None)).
  { intros msg. simpl. split_and!; try done. split; [done | lia]. }
  destruct available; simpl; [|apply Hdeg].
  destruct (get_structure "predicted" predicted_pdb) as [ps|e]; simpl; [|apply Hdeg].
  destruct (get_structure "experimental" experimental_pdb) as [es|e]; simpl;
    [|apply Hdeg].
  destruct (Nat.eqb_spec (Nat.min (length (extract_atoms is_aa atom_type ps))
                                  (length (extract_atoms is_aa atom_type es))) 0)
    as [|Hn]; simpl; [apply Hdeg|].
  destruct (superimposer_rms _ _) as [r|e]; simpl; [|apply Hdeg].
  split_and!; try done. split; [lia | done].
Qed.

Lemma residue_atoms_unknown_type atom_type r :
  atom_type ≠ "CA" → atom_type ≠ "all" → residue_atoms is_aa atom_type r = [].
Proof.
  intros Hca Hall. unfold residue_atoms.
  apply String.eqb_neq in Hca, Hall. rewrite Hca, Hall. by destruct (is_aa r).
Qed.

Lemma flat_map_nil {A B} (f : A → list B) (l : list A) :
  (∀ x, f x = []) → flat_map f l = [].
Proof. intros Hf. induction l as [|x l IH]; simpl; [done|]. by rewrite Hf, IH. Qed.

(** X13.  An [atom_type] other than ['CA'] and ['all'] is not rejected: no
    atom is selected from either structure, and once both files have been
    parsed the call returns the result of an empty alignment, with the error
    'No matching atoms'. *)
Theorem calculate_rmsd_unknown_atom_type predicted_pdb experimental_pdb atom_type
    pred_structure exp_structure :
  atom_type ≠ "CA" → atom_type ≠ "all" →
  get_structure "predicted" predicted_pdb = Return pred_structure →
  get_structure "experimental" experimental_pdb = Return exp_structure →
  extract_atoms is_aa atom_type pred_structure = [] ∧
  calculate_rmsd true get_structure is_aa superimposer_rms
    predicted_pdb experimental_pdb atom_type
  = ([], Return (degraded "No matching atoms")).
Proof.
  intros Hca Hall Hp He.
  assert (Hnil : ∀ s, extract_atoms is_aa atom_type s = []).
  { intros s. unfold extract_atoms.
    apply flat_map_nil. intros m. apply flat_map_nil. intros c.
    apply flat_map_nil. intros r. by apply residue_atoms_unknown_type. }
  split; [apply Hnil|].
  unfold calculate_rmsd. simpl. rewrite Hp, He. simpl. by rewrite !Hnil.
Qed.

Lemma flat_map_sublist {A B} (f g : A → list B) (l : list A) :
  (∀ x, f x `sublist_of` g x) → flat_map f l `sublist_of` flat_map g l.
Proof.
  intros Hfg. induction l as [|x l IH]; simpl; [done|]. by apply sublist_app.
Qed.

Lemma flat_map_length_le {A B} (f : A → list B) (l : list A) n :
  (∀ x, length (f x) ≤ n) → length (flat_map f l) ≤ n * length l.
Proof.
  intros Hf. induction l as [|x l IH]; simpl; [lia|].
  rewrite length_app. specialize (Hf x). lia.
Qed.

Lemma residue_atoms_CA r :
  residue_atoms is_aa "CA" r `sublist_of` residue_atoms is_aa "all" r ∧
  length (residue_atoms is_aa "CA" r) ≤ 1 ∧
  Forall (λ a, atom_name a = "CA") (residue_atoms is_aa "CA" r).
Proof.
  unfold residue_atoms, residue_get. simpl.
  destruct (is_aa r); [|split_and!; [done | simpl; lia | done]].
  destruct (find _ (atoms r)) as [ca|] eqn:E;
    [|split_and!; [apply sublist_nil_l | simpl; lia | done]].
  apply find_some in E as [Hin Hname]. apply String.eqb_eq in Hname.
  split_and!; [|simpl; lia|by repeat constructor].
  apply list_elem_of_In, list_elem_of_split in Hin as (l1 & l2 & ->).
  apply (sublist_app [] l1 [ca] (ca :: l2)); [apply sublist_nil_l|].
  apply sublist_skip, sublist_nil_l.
Qed.

(** X14.  With [atom_type] ['CA'], [calculate_rmsd] selects only atoms named
    ['CA'], at most one per residue, and they are among the atoms selected
    with [atom_type] ['all'], in the same order. *)
Theorem alpha_carbon_selection (s : structure) :
  Forall (λ a, atom_name a = "CA") (extract_atoms is_aa "CA" s) ∧
  length (extract_atoms is_aa "CA" s) ≤ length (residues s) ∧
  extract_atoms is_aa "CA" s `sublist_of` extract_atoms is_aa "all" s.
Proof.
  split_and!.
  - unfold extract_atoms. rewrite Forall_forall. intros a Ha.
    apply list_elem_of_In, in_flat_map in Ha as (m & _ & Ha).
    apply in_flat_map in Ha as (c & _ & Ha).
    apply in_flat_map in Ha as (r & _ & Ha).
    destruct (residue_atoms_CA r) as (_ & _ & Hf).
    rewrite Forall_forall in Hf. by apply Hf, list_elem_of_In.
  - unfold extract_atoms, residues.
    induction s as [|m s IHs]; simpl; [done|].
    rewrite concat_app, !length_app.
    assert (Hm : length (flat_map (λ c : chain, flat_map (residue_atoms is_aa "CA") c) m)
                 ≤ length (concat m)).
    { clear. induction m as [|c m IHm]; simpl; [done|].
      rewrite !length_app.
      pose proof (flat_map_length_le (residue_atoms is_aa "CA") c 1
                    (λ r, proj1 (proj2 (residue_atoms_CA r)))). lia. }
    lia.
  - unfold extract_atoms.
    apply flat_map_sublist. intros m. apply flat_map_sublist. intros c.
    apply flat_map_sublist. intros r. apply residue_atoms_CA.
Qed.

End SuperpositionMore.

Section SuperpositionMoreRuns.
Import Compare Scenario Cases.

Lemma calculate_rmsd_result_shape_witness :
  ∃ r,
    (calculate_rmsd true two_files every_residue rms_zero
       "pred.pdb" "exp.pdb" "CA").2 = Return r ∧
    (error r = None ↔ 0 < n_atoms r) ∧
    (error r = None → Compare.atom_type r = Some "CA" ∧ true = true) ∧
    (error r ≠ None → rmsd r = fzero ∧ Compare.atom_type r = None).
Proof.
  exact (calculate_rmsd_result_shape two_files every_residue rms_zero true
           "pred.pdb" "exp.pdb" "CA").
Defined.

Lemma calculate_rmsd_unknown_atom_type_witness :
  extract_atoms every_residue "backbone" [[[gly 0; gly 4]]] = [] ∧
  calculate_rmsd true two_files every_residue rms_zero
    "pred.pdb" "exp.pdb" "backbone"
  = ([], Return (degraded "No matching atoms")).
Proof.
  apply (calculate_rmsd_unknown_atom_type two_files every_residue rms_zero
           "pred.pdb" "exp.pdb" "backbone" [[[gly 0; gly 4]]] [[[gly 1]]]).
  - discriminate.
  - discriminate.
  - reflexivity.
  - reflexivity.
Defined.

End SuperpositionMoreRuns.

(** * Interaction comparison: counts, roles, agreement, and the report *)

Section FloatQuotients.
Local Open Scope Z_scope.

(** The mantissa and exponent of the float of a positive integer below
    [2^53]. *)
Lemma of_int_canonical z :
  0 < z < 2 ^ 53 →
  ∃ m e, of_int z = S754_finite false m e ∧
         Zpos (digits2_pos m) = 53 ∧ -52 ≤ e ≤ 0.
Proof.
  intros [Hpos Hlt]. destruct z as [|p|p]; try lia.
  unfold of_int, binary_normalize, binary_round.
  pose proof (digits2_pos_le p 53 ltac:(lia) Hlt) as Hd.
  assert (Hd1 : 1 ≤ Zpos (digits2_pos p)) by lia.
  unfold fexp, SpecFloat.emin, prec, emax, shl_align.
  replace (Z.max (Zpos (digits2_pos p) + 0 - 53) (3 - 1024 - 53))
    with (Zpos (digits2_pos p) - 53) by lia.
  destruct (Zpos (digits2_pos p) - 53 - 0) as [|k|k] eqn:Ek; try lia.
  - exists p, 0. split_and!; try lia. apply (binary_round_aux_exact false p 0); lia.
  - exists (Pos.iter xO p k), (Zpos (digits2_pos p) - 53).
    assert (Hk : Zpos (digits2_pos (Pos.iter xO p k)) = 53)
      by (rewrite digits2_pos_iter_xO; lia).
    split_and!; try lia. apply (binary_round_aux_exact false); [done | lia].
Qed.

(** A float of 53 digits divided by itself is [1.0]. *)
Lemma fdiv_self m e :
  Zpos (digits2_pos m) = 53 →
  fdiv (S754_finite false m e) (S754_finite false m e) = Report.float_1_0.
Proof.
  intros Hd. unfold fdiv, SFdiv, SFdiv_core_binary, Zdigits2.
  rewrite Hd. unfold fexp, SpecFloat.emin, prec, emax.
  replace (53 + e - (53 + e)) with 0 by lia.
  replace (e - e) with 0 by lia.
  change (((0 - 53) `max` (3 - 1024 - 53)) `min` 0) with (-53).
  change (0 - -53) with 53. cbv iota beta.
  assert (Hq : Z.div_eucl (Z.shiftl (Zpos m) 53) (Zpos m) = (2 ^ 53, 0)).
  { rewrite Z.shiftl_mul_pow2 by lia.
    pose proof (Z.div_eucl_eq (Zpos m * 2 ^ 53) (Zpos m) ltac:(lia)) as Heq.
    pose proof (Z.mod_pos_bound (Zpos m * 2 ^ 53) (Zpos m) ltac:(lia)) as Hb.
    unfold Z.modulo in Hb.
    destruct (Z.div_eucl (Zpos m * 2 ^ 53) (Zpos m)) as [q r].
    assert (r = 0 ∧ q = 2 ^ 53) as [-> ->]; [|done].
    assert (Hr : r = Zpos m * (2 ^ 53 - q)) by lia.
    assert (2 ^ 53 - q = 0) by nia. split; nia. }
  rewrite Hq. unfold new_location. destruct (Z.even (Zpos m)); reflexivity.
Qed.

End FloatQuotients.

(** The thresholds of the report as Python reads them: the literal [0.8] is
    the float nearest to 4/5, and so on. *)
Lemma report_thresholds :
  of_int 1 = Report.float_1_0 ∧ of_int 2 = Report.float_2_0 ∧
  of_int 3 = Report.float_3_0 ∧
  int_truediv 2 5 = Report.float_0_4 ∧ int_truediv 1 2 = Report.float_0_5 ∧
  int_truediv 3 5 = Report.float_0_6 ∧ int_truediv 7 10 = Report.float_0_7 ∧
  int_truediv 4 5 = Report.float_0_8.
Proof. split_and!; reflexivity. Qed.

Section ComparatorMore.
Import Compare.
Context {T : Type} {T_eq_dec : EqDecision T} {T_countable : Countable T}.
Variable set_iter : gset T → list T.
Implicit Types (X Y : gset (interaction T)) (l : list (interaction T)) (t : T).

Lemma size_intersection_difference X Y : size (X ∩ Y) + size (X ∖ Y) = size X.
Proof.
  rewrite <- size_union.
  - f_equal. apply set_eq. intros i.
    rewrite elem_of_union, elem_of_intersection, elem_of_difference.
    destruct (decide (i ∈ Y)); tauto.
  - intros i [_ Hy]%elem_of_intersection [_ Hn]%elem_of_difference. done.
Qed.

Lemma ratio_unfold n X :
  ratio n X = if decide (size X = 0) then fzero
              else int_truediv (Z.of_nat n) (Z.of_nat (size X)).
Proof.
  unfold ratio.
  destruct (decide (size X = 0)) as [Hz|Hnz], (decide (X = ∅)) as [Hx|Hne];
    try done.
  - apply size_empty_iff, leibniz_equiv in Hz. done.
  - rewrite Hx, size_empty in Hnz. done.
Qed.

(** X15.  In the result of [compare_interactions], true and false positives
    add up to ['predicted_total'], true positives and false negatives add up
    to ['experimental_total'], and each total is at most the length of the
    list it was computed from (repeated tuples count once). *)
Theorem overall_counts_partition pred_interactions exp_interactions :
  let o := overall (compare_interactions set_iter pred_interactions exp_interactions) in
  Overall.true_positives o + Overall.false_positives o = Overall.predicted_total o ∧
  Overall.true_positives o + Overall.false_negatives o = Overall.experimental_total o ∧
  Overall.predicted_total o ≤ length pred_interactions ∧
  Overall.experimental_total o ≤ length exp_interactions.
Proof.
  simpl. split_and!.
  - apply size_intersection_difference.
  - rewrite (comm_L (∩)). apply size_intersection_difference.
  - apply size_list_to_set_le.
  - apply size_list_to_set_le.
Qed.

Lemma group_by_type_ext l l' :
  (list_to_set l : gset (interaction T)) = list_to_set l' →
  group_by_type l = group_by_type l'.
Proof.
  intros Hset. apply map_eq. intros t. rewrite !group_by_type_lookup, Hset.
  assert (Hin : t ∈ l.*2 ↔ t ∈ l'.*2).
  { rewrite !list_elem_of_fmap.
    split; intros (i & -> & Hi); exists i; split; try done.
    - apply (elem_of_list_to_set (C:=gset (interaction T))).
      rewrite <- Hset. by apply elem_of_list_to_set.
    - apply (elem_of_list_to_set (C:=gset (interaction T))).
      rewrite Hset. by apply elem_of_list_to_set. }
  destruct (decide (t ∈ l.*2)), (decide (t ∈ l'.*2)); try done; tauto.
Qed.

End ComparatorMore.

Section TwoComparisons.
Import Compare.
Context {T : Type} {T_eq_dec : EqDecision T} {T_countable : Countable T}.
Implicit Types (l : list (interaction T)) (t : T).

(** Two calls of [compare_interactions], each with the order in which it
    comes to enumerate its own set of types. *)
Variable set_iter set_iter' : gset T → list T.
Hypothesis set_iter_enumerates : ∀ s : gset T, set_iter s ≡ₚ elements s.
Hypothesis set_iter_enumerates' : ∀ s : gset T, set_iter' s ≡ₚ elements s.

Lemma set_iter_same_members (s : gset T) : set_iter s ≡ₚ set_iter' s.
Proof. by rewrite set_iter_enumerates, set_iter_enumerates'. Qed.

(** X16.  [compare_interactions] depends only on the two sets of tuples, up
    to the order of the rows of ['by_type']: when the lists of a second call
    hold the same sets as those of a first one, in any order and with any
    repetitions, the overall metrics are equal and the rows of ['by_type']
    are the same rows, one for each type, possibly in another order (each
    call enumerates its own set of types).  As dictionaries the two results
    are equal. *)
Theorem comparison_depends_on_sets pred_interactions pred_interactions'
    exp_interactions exp_interactions' :
  (list_to_set pred_interactions : gset (interaction T))
  = list_to_set pred_interactions' →
  (list_to_set exp_interactions : gset (interaction T))
  = list_to_set exp_interactions' →
  let c := compare_interactions set_iter pred_interactions exp_interactions in
  let c' := compare_interactions set_iter' pred_interactions' exp_interactions' in
  overall c = overall c' ∧
  by_type c ≡ₚ by_type c' ∧
  NoDup (by_type c).*1 ∧ NoDup (by_type c').*1.
Proof.
  intros Hp He c c'. unfold c, c', compare_interactions.
  cbn [overall by_type].
  rewrite Hp, He, (group_by_type_ext _ _ Hp), (group_by_type_ext _ _ He).
  split_and!.
  - done.
  - apply Permutation_map, set_iter_same_members.
  - rewrite fst_map_pair. by apply set_iter_NoDup.
  - rewrite fst_map_pair. by apply set_iter_NoDup.
Qed.

(** X17.  Exchanging the predicted and the experimental list in
    [compare_interactions] exchanges the two totals, false positives with
    false negatives, and precision with recall, and keeps the true
    positives.  The rows of ['by_type'] are exchanged in the same way, type
    by type: the rows of the second call, put in the order of the rows of
    the first (each call enumerates its own set of types, and the two orders
    may differ), match them pairwise. *)
Theorem exchanging_roles pred_interactions exp_interactions :
  let c := compare_interactions set_iter pred_interactions exp_interactions in
  let c' := compare_interactions set_iter' exp_interactions pred_interactions in
  Overall.predicted_total (overall c') = Overall.experimental_total (overall c) ∧
  Overall.experimental_total (overall c') = Overall.predicted_total (overall c) ∧
  Overall.true_positives (overall c') = Overall.true_positives (overall c) ∧
  Overall.false_positives (overall c') = Overall.false_negatives (overall c) ∧
  Overall.false_negatives (overall c') = Overall.false_positives (overall c) ∧
  Overall.precision (overall c') = Overall.recall (overall c) ∧
  Overall.recall (overall c') = Overall.precision (overall c) ∧
  ∃ rows', rows' ≡ₚ by_type c' ∧
    Forall2 (λ row' row : T * ByType.t,
               row'.1 = row.1 ∧
               ByType.predicted row'.2 = ByType.experimental row.2 ∧
               ByType.experimental row'.2 = ByType.predicted row.2 ∧
               ByType.tp row'.2 = ByType.tp row.2 ∧
               ByType.fp row'.2 = ByType.fn row.2 ∧
               ByType.fn row'.2 = ByType.fp row.2 ∧
               ByType.precision row'.2 = ByType.recall row.2 ∧
               ByType.recall row'.2 = ByType.precision row.2)
            rows' (by_type c).
Proof.
  simpl. split_and!; try done.
  - by rewrite (comm_L (∩)).
  - by rewrite (comm_L (∩)).
  - by rewrite (comm_L (∩)).
  - rewrite (comm_L (∪) (dom (group_by_type exp_interactions))).
    eexists (List.map _ (set_iter (dom (group_by_type pred_interactions)
                                   ∪ dom (group_by_type exp_interactions)))).
    split.
    + apply Permutation_map, set_iter_same_members.
    + apply Forall2_fmap, Forall_Forall2_diag, Forall_forall. intros t _. simpl.
      split_and!; try done; by rewrite (comm_L (∩)).
Qed.

End TwoComparisons.

Section TwoComparisonsRuns.
Import Compare Scenario Cases.

(** The second call enumerates its types in the reverse of the order of the
    first. *)
Lemma comparison_depends_on_sets_witness :
  let c := compare_interactions elements predicted_twice experimental in
  let c' := compare_interactions (λ s, reverse (elements s))
              predicted experimental in
  overall c = overall c' ∧
  by_type c ≡ₚ by_type c' ∧
  NoDup (by_type c).*1 ∧ NoDup (by_type c').*1.
Proof.
  apply (comparison_depends_on_sets elements (λ s, reverse (elements s))
           (λ s, Permutation_refl (elements s))
           (λ s, reverse_Permutation (elements s))
           predicted_twice predicted experimental experimental).
  - reflexivity.
  - reflexivity.
Defined.

Lemma exchanging_roles_witness :
  let c := compare_interactions elements predicted experimental in
  let c' := compare_interactions (λ s, reverse (elements s))
              experimental predicted in
  Overall.predicted_total (overall c') = Overall.experimental_total (overall c) ∧
  Overall.experimental_total (overall c') = Overall.predicted_total (overall c) ∧
  Overall.true_positives (overall c') = Overall.true_positives (overall c) ∧
  Overall.false_positives (overall c') = Overall.false_negatives (overall c) ∧
  Overall.false_negatives (overall c') = Overall.false_positives (overall c) ∧
  Overall.precision (overall c') = Overall.recall (overall c) ∧
  Overall.recall (overall c') = Overall.precision (overall c) ∧
  ∃ rows', rows' ≡ₚ by_type c' ∧
    Forall2 (λ row' row : string * ByType.t,
               row'.1 = row.1 ∧
               ByType.predicted row'.2 = ByType.experimental row.2 ∧
               ByType.experimental row'.2 = ByType.predicted row.2 ∧
               ByType.tp row'.2 = ByType.tp row.2 ∧
               ByType.fp row'.2 = ByType.fn row.2 ∧
               ByType.fn row'.2 = ByType.fp row.2 ∧
               ByType.precision row'.2 = ByType.recall row.2 ∧
               ByType.recall row'.2 = ByType.precision row.2)
            rows' (by_type c).
Proof.
  exact (exchanging_roles elements (λ s, reverse (elements s))
           (λ s, Permutation_refl (elements s))
           (λ s, reverse_Permutation (elements s))
           predicted experimental).
Defined.

End TwoComparisonsRuns.

Section PerTypeRows.
Import Compare.
Context {T : Type} {T_eq_dec : EqDecision T} {T_countable : Countable T}.
Variable set_iter : gset T → list T.
Hypothesis set_iter_enumerates : ∀ s : gset T, set_iter s ≡ₚ elements s.
Implicit Types (X Y : gset (interaction T)) (l : list (interaction T)) (t : T).

Lemma by_type_row pred_interactions exp_interactions t row :
  (t, row) ∈ by_type (compare_interactions set_iter pred_interactions exp_interactions) →
  (t ∈ pred_interactions.*2 ∨ t ∈ exp_interactions.*2) ∧
  ByType.predicted row = size (of_type t (list_to_set pred_interactions)) ∧
  ByType.experimental row = size (of_type t (list_to_set exp_interactions)) ∧
  ByType.tp row = size (of_type t (list_to_set pred_interactions)
                        ∩ of_type t (list_to_set exp_interactions)) ∧
  ByType.fp row = size (of_type t (list_to_set pred_interactions)
                        ∖ of_type t (list_to_set exp_interactions)) ∧
  ByType.fn row = size (of_type t (list_to_set exp_interactions)
                        ∖ of_type t (list_to_set pred_interactions)).
Proof.
  unfold compare_interactions. cbn [by_type].
  intros (t' & Heq & Ht)%list_elem_of_fmap. injection Heq as -> ->.
  apply (elem_of_set_iter set_iter set_iter_enumerates) in Ht.
  rewrite elem_of_union, !group_by_type_dom in Ht.
  cbn [ByType.predicted ByType.experimental ByType.tp ByType.fp ByType.fn].
  by rewrite !group_by_type_default.
Qed.

Lemma of_type_nonempty t l : t ∈ l.*2 → 0 < size (of_type t (list_to_set l)).
Proof.
  intros (i & -> & Hi)%list_elem_of_fmap.
  assert (Hin : i ∈ of_type i.2 (list_to_set l : gset (interaction T))).
  { apply elem_of_of_type. split; [done|]. by apply elem_of_list_to_set. }
  destruct (size (of_type i.2 (list_to_set l))) eqn:E; [|lia].
  apply size_empty_iff in E. apply E in Hin.
  by apply not_elem_of_empty in Hin.
Qed.

(** X18.  In every row of ['by_type'], [tp + fp] is the predicted count and
    [tp + fn] the experimental count of the type, and one of the two counts
    is positive; the predicted counts of the rows add up to
    ['predicted_total'] and the experimental counts to
    ['experimental_total']. *)
Theorem per_type_rows_are_consistent pred_interactions exp_interactions :
  let c := compare_interactions set_iter pred_interactions exp_interactions in
  Forall (λ row : T * ByType.t,
            ByType.tp row.2 + ByType.fp row.2 = ByType.predicted row.2 ∧
            ByType.tp row.2 + ByType.fn row.2 = ByType.experimental row.2 ∧
            0 < ByType.predicted row.2 + ByType.experimental row.2)
         (by_type c) ∧
  sum_list_with (λ row, ByType.predicted row.2) (by_type c)
  = Overall.predicted_total (overall c) ∧
  sum_list_with (λ row, ByType.experimental row.2) (by_type c)
  = Overall.experimental_total (overall c).
Proof.
  intros c. split_and!.
  - apply Forall_forall. intros [t row] Hrow.
    apply by_type_row in Hrow as (Ht & Hp & He & Htp & Hfp & Hfn).
    simpl. rewrite Hp, He, Htp, Hfp, Hfn.
    split_and!.
    + apply size_intersection_difference.
    + rewrite (comm_L (∩)). apply size_intersection_difference.
    + destruct Ht as [Ht|Ht]; apply of_type_nonempty in Ht; lia.
  - unfold c, compare_interactions. cbn [by_type overall Overall.predicted_total].
    rewrite sum_list_with_map. cbn [snd ByType.predicted].
    rewrite <- (size_of_type_sum
                  (set_iter (dom (group_by_type pred_interactions)
                             ∪ dom (group_by_type exp_interactions)))
                  (list_to_set pred_interactions)).
    + apply sum_list_with_ext. intros t. by rewrite group_by_type_default.
    + by apply set_iter_NoDup.
    + intros i Hi. apply (elem_of_set_iter set_iter set_iter_enumerates).
      rewrite elem_of_union, !group_by_type_dom. left.
      apply list_elem_of_fmap_2. by apply elem_of_list_to_set in Hi.
  - unfold c, compare_interactions. cbn [by_type overall Overall.experimental_total].
    rewrite sum_list_with_map. cbn [snd ByType.experimental].
    rewrite <- (size_of_type_sum
                  (set_iter (dom (group_by_type pred_interactions)
                             ∪ dom (group_by_type exp_interactions)))
                  (list_to_set exp_interactions)).
    + apply sum_list_with_ext. intros t. by rewrite group_by_type_default.
    + by apply set_iter_NoDup.
    + intros i Hi. apply (elem_of_set_iter set_iter set_iter_enumerates).
      rewrite elem_of_union, !group_by_type_dom. right.
      apply list_elem_of_fmap_2. by apply elem_of_list_to_set in Hi.
Qed.

End PerTypeRows.

Section PerTypeRowsRuns.
Import Compare Scenario Cases.

Lemma per_type_rows_are_consistent_witness :
  let c := compare_interactions elements predicted experimental in
  Forall (λ row : string * ByType.t,
            ByType.tp row.2 + ByType.fp row.2 = ByType.predicted row.2 ∧
            ByType.tp row.2 + ByType.fn row.2 = ByType.experimental row.2 ∧
            0 < ByType.predicted row.2 + ByType.experimental row.2)
         (by_type c) ∧
  sum_list_with (λ row, ByType.predicted row.2) (by_type c)
  = Overall.predicted_total (overall c) ∧
  sum_list_with (λ row, ByType.experimental row.2) (by_type c)
  = Overall.experimental_total (overall c).
Proof.
  exact (per_type_rows_are_consistent elements
           (λ s, Permutation_refl (elements s)) predicted experimental).
Defined.

End PerTypeRowsRuns.

Section Agreement.
Import Compare.
Context {T : Type} {T_eq_dec : EqDecision T} {T_countable : Countable T}.
Variable set_iter : gset T → list T.

Lemma int_truediv_self n :
  0 < n → (Z.of_nat n < 2 ^ 53)%Z →
  int_truediv (Z.of_nat n) (Z.of_nat n) = Report.float_1_0.
Proof.
  intros Hn Hb. unfold int_truediv.
  destruct (of_int_canonical (Z.of_nat n)) as (m & e & -> & Hd & _); [lia|].
  by apply fdiv_self.
Qed.

Lemma int_truediv_zero n :
  0 < n → (Z.of_nat n < 2 ^ 53)%Z → int_truediv 0 (Z.of_nat n) = fzero.
Proof.
  intros Hn Hb. unfold int_truediv.
  destruct (of_int_finite (Z.of_nat n)) as (m & e & ->); [lia|]. done.
Qed.

(** X19.  When the two lists hold the same set of tuples, and it is not
    empty, [compare_interactions] finds no false positive and no false
    negative, precision, recall and F1 are exactly 1.0, and the report rates
    the agreement 'EXCELLENT'. *)
Theorem identical_sets_score_one pred_interactions exp_interactions :
  (list_to_set pred_interactions : gset (interaction T))
  = list_to_set exp_interactions →
  pred_interactions ≠ [] →
  (Z.of_nat (length pred_interactions) < 2 ^ 53)%Z →
  let o := overall (compare_interactions set_iter pred_interactions exp_interactions) in
  Overall.false_positives o = 0 ∧
  Overall.false_negatives o = 0 ∧
  Overall.precision o = Report.float_1_0 ∧
  Overall.recall o = Report.float_1_0 ∧
  Overall.f1_score o = Report.float_1_0 ∧
  Report.f1_quality_line (Overall.f1_score o)
  = "Quality: ★★★★★ EXCELLENT agreement (F1 > 0.8)".
Proof.
  intros Hset Hne Hb. simpl. rewrite <- Hset.
  set (P := list_to_set pred_interactions : gset (interaction T)).
  assert (Hpos : 0 < size P).
  { destruct pred_interactions as [|i l]; [done|].
    destruct (size P) eqn:E; [|lia].
    apply size_empty_iff in E. exfalso.
    apply (not_elem_of_empty (C:=gset (interaction T)) i), E. unfold P.
    apply elem_of_list_to_set. left. }
  assert (Hbound : (Z.of_nat (size P) < 2 ^ 53)%Z).
  { pose proof (size_list_to_set_le pred_interactions) as Hle. fold P in Hle. lia. }
  assert (Hii : P ∩ P = P) by (apply set_eq; intros i; rewrite elem_of_intersection; tauto).
  assert (Hdd : P ∖ P = ∅)
    by (apply set_eq; intros i; rewrite elem_of_difference, elem_of_empty; tauto).
  rewrite Hii, Hdd, size_empty.
  assert (Hr : ratio (size P) P = Report.float_1_0).
  { rewrite ratio_unfold. destruct (decide (size P = 0)); [lia|].
    by apply int_truediv_self. }
  rewrite Hr. split_and!; done.
Qed.

(** X20.  When the two lists have no tuple in common, every predicted tuple
    is a false positive and every experimental one a false negative,
    precision, recall and F1 are 0.0, the report rates the agreement 'POOR',
    and the summary of [main] is 'Moderate prediction quality', whatever
    the RMSD. *)
Theorem disjoint_sets_score_zero pred_interactions exp_interactions ca_rmsd :
  (list_to_set pred_interactions : gset (interaction T))
  ## list_to_set exp_interactions →
  (Z.of_nat (length pred_interactions) < 2 ^ 53)%Z →
  (Z.of_nat (length exp_interactions) < 2 ^ 53)%Z →
  let o := overall (compare_interactions set_iter pred_interactions exp_interactions) in
  Overall.true_positives o = 0 ∧
  Overall.false_positives o = Overall.predicted_total o ∧
  Overall.false_negatives o = Overall.experimental_total o ∧
  Overall.precision o = fzero ∧
  Overall.recall o = fzero ∧
  Overall.f1_score o = fzero ∧
  Report.f1_quality_line (Overall.f1_score o)
  = "Quality: ★★☆☆☆ POOR agreement (F1 < 0.4)" ∧
  Report.summary_line ca_rmsd (Overall.f1_score o)
  = "⚠ Moderate prediction quality - review details".
Proof.
  intros Hdisj Hbp Hbe. simpl.
  pose proof (size_list_to_set_le pred_interactions) as Hsp.
  pose proof (size_list_to_set_le exp_interactions) as Hse.
  set (P := list_to_set pred_interactions : gset (interaction T)) in *.
  set (E := list_to_set exp_interactions : gset (interaction T)) in *.
  assert (Hi : P ∩ E = ∅).
  { apply set_eq. intros i. rewrite elem_of_intersection, elem_of_empty.
    split; [|done]. intros [Hp He]. by apply (Hdisj i). }
  assert (Hd1 : P ∖ E = P).
  { apply set_eq. intros i. rewrite elem_of_difference.
    split; [tauto|]. intros Hp. split; [done|]. intros He. by apply (Hdisj i). }
  assert (Hd2 : E ∖ P = E).
  { apply set_eq. intros i. rewrite elem_of_difference.
    split; [tauto|]. intros He. split; [done|]. intros Hp. by apply (Hdisj i). }
  rewrite Hi, Hd1, Hd2, size_empty.
  assert (Hr : ∀ X : gset (interaction T),
            (Z.of_nat (size X) < 2 ^ 53)%Z → ratio 0 X = fzero).
  { intros X HX. rewrite ratio_unfold. destruct (decide (size X = 0)); [done|].
    apply int_truediv_zero; [lia | done]. }
  rewrite !Hr by lia.
  split_and!; try done.
  unfold Report.summary_line.
  change (flt Report.float_0_7 (f_measure fzero fzero)) with false.
  change (flt Report.float_0_5 (f_measure fzero fzero)) with false.
  by rewrite !andb_false_r.
Qed.

End Agreement.

Section AgreementRuns.
Import Compare Scenario Cases.

Lemma identical_sets_score_one_witness :
  let o := overall (compare_interactions elements experimental experimental) in
  Overall.false_positives o = 0 ∧
  Overall.false_negatives o = 0 ∧
  Overall.precision o = Report.float_1_0 ∧
  Overall.recall o = Report.float_1_0 ∧
  Overall.f1_score o = Report.float_1_0 ∧
  Report.f1_quality_line (Overall.f1_score o)
  = "Quality: ★★★★★ EXCELLENT agreement (F1 > 0.8)".
Proof.
  apply (identical_sets_score_one elements experimental experimental).
  - reflexivity.
  - discriminate.
  - simpl. lia.
Defined.

Lemma disjoint_sets_score_zero_witness :
  let o := overall (compare_interactions elements unobserved experimental) in
  Overall.true_positives o = 0 ∧
  Overall.false_positives o = Overall.predicted_total o ∧
  Overall.false_negatives o = Overall.experimental_total o ∧
  Overall.precision o = fzero ∧
  Overall.recall o = fzero ∧
  Overall.f1_score o = fzero ∧
  Report.f1_quality_line (Overall.f1_score o)
  = "Quality: ★★☆☆☆ POOR agreement (F1 < 0.4)" ∧
  Report.summary_line fzero (Overall.f1_score o)
  = "⚠ Moderate prediction quality - review details".
Proof.
  apply (disjoint_sets_score_zero elements unobserved experimental fzero).
  - apply (bool_decide_unpack _). vm_compute. exact I.
  - simpl. lia.
  - simpl. lia.
Defined.

End AgreementRuns.

Section ReportFacts.
Import Compare.
Variable get_structure : string → string → result exception structure.
Variable is_aa : residue → bool.
Variable superimposer_rms : list atom → list atom → result exception float.

Lemma calculate_rmsd_error_is_degraded available predicted_pdb experimental_pdb
    atom_type r :
  (calculate_rmsd available get_structure is_aa superimposer_rms
     predicted_pdb experimental_pdb atom_type).2 = Return r →
  error r ≠ None → ∃ msg, r = degraded msg.
Proof.
  rewrite calculate_rmsd_returns. intros [= <-].
  destruct available; simpl; [|by eexists].
  destruct (get_structure "predicted" predicted_pdb) as [ps|e]; simpl; [|by eexists].
  destruct (get_structure "experimental" experimental_pdb) as [es|e]; simpl;
    [|by eexists].
  destruct (_ =? 0); simpl; [by eexists|].
  destruct (superimposer_rms _ _) as [x|e]; simpl; [done | by eexists].
Qed.

(** X21.  When [calculate_rmsd] returns a dictionary with ['error'] for the
    alpha carbons, the report leaves out the line of the C-alpha RMSD, and
    rates the structure by the ['rmsd'] 0.0 of that dictionary: it writes
    'Quality: EXCELLENT (RMSD < 1.0)' with five stars, and with an F1 score
    above 0.7 the summary of [main] is 'EXCELLENT prediction quality!'. *)
Theorem failed_alignment_is_rated_excellent available predicted_pdb experimental_pdb
    atom_type ca all_atoms f1 :
  (calculate_rmsd available get_structure is_aa superimposer_rms
     predicted_pdb experimental_pdb atom_type).2 = Return ca →
  error ca ≠ None →
  let report := Report.structural_alignment
                  {| Report.CA := Some ca; Report.all := Some all_atoms |} in
  report.2 = Return () ∧
  (∀ value n, Report.Rmsd "C-alpha RMSD" value n ∉ report.1) ∧
  Report.Text "Quality: ★★★★★ EXCELLENT (RMSD < 1.0 Å)" ∈ report.1 ∧
  (flt Report.float_0_7 f1 = true →
   Report.summary_line (rmsd ca) f1 = "✓ EXCELLENT prediction quality!").
Proof.
  intros Hout Herr.
  destruct (calculate_rmsd_error_is_degraded _ _ _ _ _ Hout Herr) as [msg ->].
  unfold Report.structural_alignment. simpl.
  split_and!.
  - done.
  - intros value n Hin.
    destruct (error all_atoms); simpl in Hin;
      repeat (apply elem_of_cons in Hin as [Hin|Hin]; [discriminate|]);
      by apply elem_of_nil in Hin.
  - destruct (error all_atoms); simpl;
      repeat (first [by left | right]).
  - intros Hf. unfold Report.summary_line. rewrite Hf. reflexivity.
Qed.

End ReportFacts.

Section ReportRuns.
Import Compare Scenario Cases.

Lemma failed_alignment_is_rated_excellent_witness :
  let report :=
    Report.structural_alignment
      {| Report.CA := Some (degraded "Invalid or missing coordinate(s) at line 1.");
         Report.all := Some one_atom |} in
  report.2 = Return () ∧
  (∀ value n, Report.Rmsd "C-alpha RMSD" value n ∉ report.1) ∧
  Report.Text "Quality: ★★★★★ EXCELLENT (RMSD < 1.0 Å)" ∈ report.1 ∧
  (flt Report.float_0_7 Report.float_1_0 = true →
   Report.summary_line
     (rmsd (degraded "Invalid or missing coordinate(s) at line 1."))
     Report.float_1_0
   = "✓ EXCELLENT prediction quality!").
Proof.
  apply (failed_alignment_is_rated_excellent unparsable every_residue rms_zero
           true "pred.pdb" "exp.pdb" "CA"
           (degraded "Invalid or missing coordinate(s) at line 1.")
           one_atom Report.float_1_0).
  - reflexivity.
  - discriminate.
Defined.

End ReportRuns.
